(** * rag_cli_chatbot: a shallow embedding of [app.js]

    The program is a single JavaScript module: a fixed-width text segmenter
    ([chunkText]), three thin HTTP clients ([embedWithGemini],
    [createCollection] / [upsertToQdrant] / [searchQdrant], [askGemini]) and
    an orchestrator ([main], [startChat]).

    Pure code is embedded as Rocq functions.  Code that talks to the outside
    world runs in a small monad that threads the process state (the number of
    HTTP requests issued so far and the trace of observable events) and
    carries JavaScript completions (return, throw, [process.exit]).  The
    remote services are an oracle: every statement is quantified over all
    oracles. *)

From Stdlib Require Import String Ascii.
From Stdlib Require Import List ZArith NArith Lia Bool.
From Stdlib Require Import Floats.PrimFloat.
From Stdlib Require Uint63.
Import ListNotations.

Set Implicit Arguments.
Set Warnings "-register-all".
Open Scope list_scope.

(** ** JavaScript strings *)

(** A JavaScript string is a sequence of UTF-16 code units; [length],
    [slice], [trim] and [===] all work on code units. *)
Definition code_unit := N.
Definition jsstring := list code_unit.

(** The code units of an ASCII literal. *)
Fixpoint lit (s : string) : jsstring :=
  match s with
  | EmptyString => []
  | String c r => N_of_ascii c :: lit r
  end.

(** [a === b] on strings. *)
Definition jsstring_eqb (a b : jsstring) : bool :=
  if list_eq_dec N.eq_dec a b then true else false.

(** The line feed of ["\n"]. *)
Definition nl : code_unit := 10%N.

(** WhiteSpace and LineTerminator of ECMAScript, all in the basic plane. *)
Definition is_js_whitespace (c : code_unit) : bool :=
  ((9 <=? c) && (c <=? 13) || (c =? 32) || (c =? 160) || (c =? 0x1680)
   || (0x2000 <=? c) && (c <=? 0x200A) || (c =? 0x2028) || (c =? 0x2029)
   || (c =? 0x202F) || (c =? 0x205F) || (c =? 0x3000) || (c =? 0xFEFF))%N.

Fixpoint trimStart (s : jsstring) : jsstring :=
  match s with
  | [] => []
  | c :: r => if is_js_whitespace c then trimStart r else s
  end.

(** [s.trim()] *)
Definition trim (s : jsstring) : jsstring :=
  rev (trimStart (rev (trimStart s))).

Definition is_ascii_unit (c : code_unit) : bool := (c <? 128)%N.

(** Lower-casing of one ASCII code unit: [A]..[Z] move to [a]..[z]. *)
Definition ascii_lower (c : code_unit) : code_unit :=
  if ((65 <=? c) && (c <=? 90))%N then (c + 32)%N else c.

(** ** JavaScript values *)

(** The values the program handles: what [JSON.parse] builds from a response
    body, plus [undefined] and the one built-in function object that a
    property read on such a value can reach ([Array.prototype.values]).
    Numbers are IEEE 754 doubles.  An object is its list of own properties,
    one binding per key. *)
Inductive JsValue : Type :=
| VUndefined
| VNull
| VBool (b : bool)
| VNum (x : float)
| VStr (s : jsstring)
| VArr (items : list JsValue)
| VObj (fields : list (jsstring * JsValue))
| VFun (name : jsstring).

(** ToBoolean: what [!v] and [if (v)] test. *)
Definition truthy (v : JsValue) : bool :=
  match v with
  | VUndefined | VNull => false
  | VBool b => b
  | VNum x => negb (PrimFloat.is_zero x || PrimFloat.is_nan x)
  | VStr s => match s with [] => false | _ => true end
  | VArr _ | VObj _ | VFun _ => true
  end.

Definition nullish (v : JsValue) : bool :=
  match v with
  | VUndefined | VNull => true
  | _ => false
  end.

(** The property names the program reads from response data. *)
Inductive PropName : Type :=
| P_embedding | P_values | P_result | P_payload | P_text
| P_candidates | P_content | P_parts.

Definition prop_key (p : PropName) : jsstring :=
  match p with
  | P_embedding => lit "embedding"
  | P_values => lit "values"
  | P_result => lit "result"
  | P_payload => lit "payload"
  | P_text => lit "text"
  | P_candidates => lit "candidates"
  | P_content => lit "content"
  | P_parts => lit "parts"
  end.

Fixpoint lookup (k : jsstring) (fields : list (jsstring * JsValue))
  : option JsValue :=
  match fields with
  | [] => None
  | (k', v) :: r => if jsstring_eqb k k' then Some v else lookup k r
  end.

(** [v.p] for a [v] that is neither [null] nor [undefined].  An object
    answers with its own property; none of the eight names is on
    [Object.prototype], [String.prototype], [Number.prototype],
    [Boolean.prototype] or [Function.prototype], and of
    [Array.prototype] only [values] is. *)
Definition member (v : JsValue) (p : PropName) : JsValue :=
  match v with
  | VObj fields =>
      match lookup (prop_key p) fields with
      | Some x => x
      | None => VUndefined
      end
  | VArr _ =>
      match p with
      | P_values => VFun (lit "values")
      | _ => VUndefined
      end
  | _ => VUndefined
  end.

(** [v[0]] for a [v] that is neither [null] nor [undefined]: the first
    element of an array, the first code unit of a string, the property
    ["0"] of an object. *)
Definition index0 (v : JsValue) : JsValue :=
  match v with
  | VArr (x :: _) => x
  | VStr (c :: _) => VStr [c]
  | VObj fields =>
      match lookup (lit "0") fields with
      | Some x => x
      | None => VUndefined
      end
  | _ => VUndefined
  end.

(** [v?.p] and [v?.[0]] *)
Definition opt_member (v : JsValue) (p : PropName) : JsValue :=
  if nullish v then VUndefined else member v p.

Definition opt_index0 (v : JsValue) : JsValue :=
  if nullish v then VUndefined else index0 v.

(** A double from a small natural number ([i + 1], [points.length], the
    default arguments [768] and [3]); exact below [2^53]. *)
Definition float_of_nat (n : nat) : float :=
  PrimFloat.of_uint63 (Uint63.of_Z (Z.of_nat n)).

Definition float_of_Z (z : Z) : float :=
  PrimFloat.of_uint63 (Uint63.of_Z z).

(** ** The engine *)

(** Three library functions are left to the engine: Number-to-string
    conversion, [JSON.stringify(v, null, 2)] and [String.prototype.toLowerCase].
    Of the last one the development uses only what Unicode fixes for
    strings of ASCII code units. *)
Record Engine : Type := {
  number_to_string : float -> jsstring;
  json_stringify : JsValue -> jsstring;
  toLowerCase : jsstring -> jsstring;
  toLowerCase_ascii :
    forall s, forallb is_ascii_unit s = true -> toLowerCase s = map ascii_lower s
}.

Section ToString.

Variable E : Engine.

(** ToString.  An array prints its elements separated by commas, [null]
    and [undefined] elements as nothing. *)
Fixpoint to_string (v : JsValue) : jsstring :=
  match v with
  | VUndefined => lit "undefined"
  | VNull => lit "null"
  | VBool true => lit "true"
  | VBool false => lit "false"
  | VNum x => number_to_string E x
  | VStr s => s
  | VArr items =>
      (fix elements (l : list JsValue) : jsstring :=
         match l with
         | [] => []
         | x :: r =>
             (if nullish x then [] else to_string x)
               ++ match r with
                  | [] => []
                  | _ => lit "," ++ elements r
                  end
         end) items
  | VObj _ => lit "[object Object]"
  | VFun name => lit "function " ++ name ++ lit "() { [native code] }"
  end.

(** [items.join(sep)] *)
Fixpoint join (sep : jsstring) (items : list JsValue) : jsstring :=
  match items with
  | [] => []
  | x :: r =>
      (if nullish x then [] else to_string x)
        ++ match r with
           | [] => []
           | _ => sep ++ join sep r
           end
  end.

(** A [${...}] hole of a template literal holding an environment variable:
    a string, or [undefined]. *)
Definition tmpl (x : option jsstring) : jsstring :=
  match x with
  | Some s => s
  | None => lit "undefined"
  end.

End ToString.

(** ** Completions *)

(** Values thrown by the program: errors built by axios (a message and, when
    the server answered, the response status and body), [new Error(msg)],
    the engine's [TypeError] and [RangeError], and a rejected
    [fs.readFile]. *)
Inductive JsError : Type :=
| AxiosError (message : jsstring) (response : option (Z * JsValue))
| PlainError (message : jsstring)
| TypeError (message : jsstring)
| FsError (message : jsstring)
| RangeError (message : jsstring).

(** [error.message] *)
Definition error_message (e : JsError) : jsstring :=
  match e with
  | AxiosError m _ | PlainError m | TypeError m | FsError m | RangeError m => m
  end.

(** The error of a [push] on an array the engine cannot grow any more
    (V8's wording). *)
Definition invalid_array_length : JsError :=
  RangeError (lit "Invalid array length").

(** [error.response?.status] and [error.response?.data] *)
Definition error_status (e : JsError) : option Z :=
  match e with
  | AxiosError _ (Some (st, _)) => Some st
  | _ => None
  end.

(** [error.response?.status === code] *)
Definition status_is (e : JsError) (code : Z) : bool :=
  match error_status e with
  | Some st => (st =? code)%Z
  | None => false
  end.

Definition error_data (e : JsError) : JsValue :=
  match e with
  | AxiosError _ (Some (_, d)) => d
  | _ => VUndefined
  end.

(** How a call completes: it returns, it throws, the process exits
    ([process.exit(code)]), or it never returns. *)
Inductive Outcome (A : Type) : Type :=
| Ok (a : A)
| Throw (e : JsError)
| Exit (code : Z)
| Hang.

Arguments Ok {A} a.
Arguments Throw {A} e.
Arguments Exit {A} code.
Arguments Hang {A}.

(** Sequencing of computations that touch no state. *)
Definition obind {A B : Type} (o : Outcome A) (f : A -> Outcome B) : Outcome B :=
  match o with
  | Ok a => f a
  | Throw e => Throw e
  | Exit c => Exit c
  | Hang => Hang
  end.

(** [v.p]: a [TypeError] on [null] and [undefined] (V8's wording). *)
Definition get_member (v : JsValue) (p : PropName) : Outcome JsValue :=
  match v with
  | VUndefined =>
      Throw (TypeError (lit "Cannot read properties of undefined (reading '"
                          ++ prop_key p ++ lit "')"))
  | VNull =>
      Throw (TypeError (lit "Cannot read properties of null (reading '"
                          ++ prop_key p ++ lit "')"))
  | _ => Ok (member v p)
  end.

(** [v[0]] *)
Definition get_index0 (v : JsValue) : Outcome JsValue :=
  match v with
  | VUndefined =>
      Throw (TypeError (lit "Cannot read properties of undefined (reading '0')"))
  | VNull =>
      Throw (TypeError (lit "Cannot read properties of null (reading '0')"))
  | _ => Ok (index0 v)
  end.

(** ** 1. Segmenter: [chunkText] *)

Section Segmenter.

Context {A : Type}.

(** [s.slice(start, stop)] for integer arguments: a negative index counts
    from the end, both are clamped to [0, length], and an empty span gives
    the empty string. *)
Definition slice (s : list A) (start stop : Z) : list A :=
  let len := Z.of_nat (length s) in
  let from := if (start <? 0)%Z then Z.max (len + start) 0 else Z.min start len in
  let to := if (stop <? 0)%Z then Z.max (len + stop) 0 else Z.min stop len in
  firstn (Z.to_nat (to - from)) (skipn (Z.to_nat from) s).

(** The [for] loop of [chunkText] as long as the array can grow: [i] is the
    loop variable, [chunks] the array built so far.  [None] when the fuel
    runs out before the loop condition fails. *)
Fixpoint chunk_loop (fuel : nat) (text : list A) (size i : Z)
         (chunks : list (list A)) : option (list (list A)) :=
  match fuel with
  | O => None
  | S fuel' =>
      if (i <? Z.of_nat (length text))%Z
      then chunk_loop fuel' text size (i + size)
                      (chunks ++ [slice text i (i + size)])
      else Some chunks
  end.

(** The same loop with the array the engine provides: it holds at most
    [capacity] elements, and the [push] that would exceed them throws
    [RangeError: Invalid array length].  The capacity belongs to the engine
    and its memory; the statements hold for every capacity. *)
Fixpoint chunk_loop_capped (capacity fuel : nat) (text : list A) (size i : Z)
         (chunks : list (list A)) : option (Outcome (list (list A))) :=
  match fuel with
  | O => None
  | S fuel' =>
      if (i <? Z.of_nat (length text))%Z
      then
        if (length chunks <? capacity)%nat
        then chunk_loop_capped capacity fuel' text size (i + size)
                               (chunks ++ [slice text i (i + size)])
        else Some (Throw invalid_array_length)
      else Some (Ok chunks)
  end.

(** What the segmenter is specified to produce: cut [n] elements at a
    time.  [fuel] bounds the number of chunks. *)
Fixpoint windows (fuel n : nat) (l : list A) : list (list A) :=
  match fuel with
  | O => []
  | S fuel' =>
      match l with
      | [] => []
      | _ => firstn n l :: windows fuel' n (skipn n l)
      end
  end.

End Segmenter.

(** [chunkText(text, size)] for an integer [size].  The function has no
    [throw] and no check of [size].  The loop runs at most [length text]
    times when its condition ever fails (lemma [chunk_loop_windows]); when
    it never does (lemma [chunk_loop_diverges]) the array grows with every
    turn until the engine refuses the [push], whatever its capacity (lemma
    [chunk_loop_capped_overflow]): the call ends with that [RangeError]. *)
Definition chunkText {A : Type} (text : list A) (size : Z)
  : Outcome (list (list A)) :=
  match chunk_loop (S (length text)) text size 0 [] with
  | Some chunks => Ok chunks
  | None => Throw invalid_array_length
  end.

(** [chunkText(text)]: the default size. *)
Definition default_chunk_size : Z := 500.

(** ** The outside world *)

Inductive Method : Type := GET | POST | PUT.

(** An axios call: method, URL, request body, and the [headers] and
    [timeout] (milliseconds) of its config object. *)
Record Request : Type := {
  method : Method;
  url : jsstring;
  body : JsValue;
  headers : list (jsstring * option jsstring);
  timeout : option Z
}.

(** What the awaited promise of an axios call settles to: a response (its
    status and parsed body), or a rejection (its message and, when the
    server did answer, the response). *)
Inductive AxiosResult : Type :=
| Resolved (status : Z) (data : JsValue)
| Rejected (message : jsstring) (response : option (Z * JsValue)).

(** The world the process runs in.  [http n r] is how the [n]-th request of
    the run (counting from 0) settles when it is [r]; [readFile p] is the
    UTF-8 text of the file at [p], or the message of the error it is
    rejected with. *)
Record Env : Type := {
  http : nat -> Request -> AxiosResult;
  readFile : jsstring -> jsstring + jsstring
}.

(** [process.env]: each variable is a string or [undefined]. *)
Record Config : Type := {
  GEMINI_API_KEY : option jsstring;
  QDRANT_API_KEY : option jsstring;
  QDRANT_HOST : option jsstring;
  COLLECTION_NAME : option jsstring
}.

(** [!x] on an environment variable. *)
Definition unset (x : option jsstring) : bool :=
  match x with
  | None | Some [] => true
  | Some _ => false
  end.

(** What an observer sees of a run, in order. *)
Inductive Event : Type :=
| EvHttp (r : Request)
| EvReadFile (path : jsstring)
| EvLog (args : list JsValue)
| EvError (args : list JsValue)
| EvStdout (s : jsstring)
| EvSetPrompt (s : jsstring)
| EvPrompt
| EvListen
| EvClose
| EvUncaught (e : JsError).

Record World : Type := {
  requests : nat;
  trace : list Event
}.

Definition initial_world : World := {| requests := 0; trace := [] |}.

Definition is_http (ev : Event) : bool :=
  match ev with
  | EvHttp _ => true
  | _ => false
  end.

(** ** The monad of the program *)

Definition M (A : Type) : Type := World -> Outcome A * World.

Definition ret {A : Type} (a : A) : M A := fun w => (Ok a, w).

Definition bind {A B : Type} (m : M A) (f : A -> M B) : M B :=
  fun w =>
    match m w with
    | (Ok a, w') => f a w'
    | (Throw e, w') => (Throw e, w')
    | (Exit c, w') => (Exit c, w')
    | (Hang, w') => (Hang, w')
    end.

Definition lift {A : Type} (o : Outcome A) : M A := fun w => (o, w).

Definition throw {A : Type} (e : JsError) : M A := lift (Throw e).

(** [process.exit(code)] *)
Definition process_exit {A : Type} (code : Z) : M A := lift (Exit code).

(** [try { m } catch (error) { h error }]: only a thrown value is caught. *)
Definition try_catch {A : Type} (m : M A) (h : JsError -> M A) : M A :=
  fun w =>
    match m w with
    | (Throw e, w') => h e w'
    | r => r
    end.

Definition emit (ev : Event) : M unit :=
  fun w => (Ok tt, {| requests := requests w; trace := trace w ++ [ev] |}).

Declare Scope js_scope.
Delimit Scope js_scope with js.
Notation "x <- m ;; k" := (bind m (fun x => k))
  (at level 61, m at next level, right associativity) : js_scope.
Notation "m ;;; k" := (bind m (fun _ => k))
  (at level 61, right associativity) : js_scope.
Open Scope js_scope.

Section Program.

Variable E : Engine.
Variable env : Env.
Variable cfg : Config.

(** [await axios(...)]: the request is issued, and the call returns the
    response or throws the rejection.  Every request settles: one that
    stays pending for ever (the search and the connectivity check set no
    timeout) is outside this model. *)
Definition axios (r : Request) : M (Z * JsValue) :=
  fun w =>
    let w' := {| requests := S (requests w); trace := trace w ++ [EvHttp r] |} in
    match http env (requests w) r with
    | Resolved st d => (Ok (st, d), w')
    | Rejected m resp => (Throw (AxiosError m resp), w')
    end.

(** [await fs.readFile(path, "utf8")] *)
Definition fs_readFile (path : jsstring) : M jsstring :=
  fun w =>
    let w' := {| requests := requests w; trace := trace w ++ [EvReadFile path] |} in
    match readFile env path with
    | inl text => (Ok text, w')
    | inr m => (Throw (FsError m), w')
    end.

(** *** 2. [embedWithGemini] *)

Definition embed_request (text : jsstring) : Request :=
  {| method := POST;
     url := lit "https://generativelanguage.googleapis.com/v1beta/models/embedding-001:embedContent?key="
              ++ tmpl (GEMINI_API_KEY cfg);
     body := VObj [(lit "model", VStr (lit "models/embedding-001"));
                   (lit "content",
                    VObj [(lit "parts", VArr [VObj [(lit "text", VStr text)]])])];
     headers := [];
     timeout := Some 30000%Z |}.

(** The body of the [for ... of] loop, then the rest of the loop;
    [embeddings] is the array built so far. *)
Fixpoint embed_loop (texts : list jsstring) (embeddings : list JsValue)
  : M (list JsValue) :=
  match texts with
  | [] => ret embeddings
  | text :: rest =>
      res <- axios (embed_request text) ;;
      embedding <- lift (get_member (snd res) P_embedding) ;;
      if negb (truthy (opt_member embedding P_values))
      then throw (PlainError (lit "Invalid response from Gemini API"))
      else
        pushed <- lift (obind (get_member (snd res) P_embedding)
                              (fun e => get_member e P_values)) ;;
        embed_loop rest (embeddings ++ [pushed])
  end.

Definition embedWithGemini (texts : list jsstring) : M (list JsValue) :=
  try_catch (embed_loop texts [])
    (fun error =>
       emit (EvError [VStr (lit "Error in embedWithGemini:");
                      VStr (error_message error)]) ;;;
       throw error).

(** *** 3. [createCollection] *)

Definition qdrant_headers : list (jsstring * option jsstring) :=
  [(lit "api-key", QDRANT_API_KEY cfg);
   (lit "Content-Type", Some (lit "application/json"))].

Definition collection_url : jsstring :=
  tmpl (QDRANT_HOST cfg) ++ lit "/collections/" ++ tmpl (COLLECTION_NAME cfg).

Definition create_request (dim : float) : Request :=
  {| method := PUT;
     url := collection_url;
     body := VObj [(lit "vectors",
                    VObj [(lit "size", VNum dim);
                          (lit "distance", VStr (lit "Cosine"))])];
     headers := qdrant_headers;
     timeout := Some 10000%Z |}.

Definition createCollection (dim : float) : M unit :=
  try_catch
    (axios (create_request dim) ;;;
     emit (EvLog [VStr (0x2705%N :: lit " Collection created or already exists.")]))
    (fun error =>
       if status_is error 409
       then emit (EvLog [VStr (0x2139%N :: 0xFE0F%N :: lit " Collection already exists")])
       else
         emit (EvError [VStr (lit "Error creating collection:");
                        VStr (error_message error)]) ;;;
         throw error).

Definition default_dim : float := 768%float.

(** *** 4. [upsertToQdrant] *)

(** [ids.map((id, i) => ({ id, vector: embeddings[i], payload: { text: texts[i] } }))],
    from index [i] on. *)
Fixpoint points_from (i : nat) (ids : list nat) (texts : list jsstring)
         (embeddings : list JsValue) : list JsValue :=
  match ids with
  | [] => []
  | id :: rest =>
      VObj [(lit "id", VNum (float_of_nat id));
            (lit "vector", nth i embeddings VUndefined);
            (lit "payload",
             VObj [(lit "text",
                    match nth_error texts i with
                    | Some t => VStr t
                    | None => VUndefined
                    end)])]
        :: points_from (S i) rest texts embeddings
  end.

Definition upsert_request (points : list JsValue) : Request :=
  {| method := PUT;
     url := collection_url ++ lit "/points";
     body := VObj [(lit "points", VArr points)];
     headers := qdrant_headers;
     timeout := Some 30000%Z |}.

Definition upsertToQdrant (ids : list nat) (texts : list jsstring)
           (embeddings : list JsValue) : M unit :=
  try_catch
    (let points := points_from 0 ids texts embeddings in
     axios (upsert_request points) ;;;
     emit (EvLog [VStr (0x2705%N :: lit " "
                          ++ number_to_string E (float_of_nat (length points))
                          ++ lit " embeddings uploaded to Qdrant.")]))
    (fun error =>
       emit (EvError [VStr (lit "Error upserting to Qdrant:");
                      VStr (error_message error)]) ;;;
       throw error).

(** *** 5. [searchQdrant] *)

Definition search_request (queryVector : JsValue) (topK : float) : Request :=
  {| method := POST;
     url := collection_url ++ lit "/points/search";
     body := VObj [(lit "vector", queryVector);
                   (lit "limit", VNum topK);
                   (lit "with_payload", VBool true);
                   (lit "with_vectors", VBool false)];
     headers := [(lit "api-key", QDRANT_API_KEY cfg)];
     timeout := None |}.

(** The separator of the context: ["\n\n---\n\n"]. *)
Definition separator : jsstring := [nl; nl] ++ lit "---" ++ [nl; nl].

(** [item => item.payload?.text] *)
Definition payload_text_opt (item : JsValue) : Outcome JsValue :=
  obind (get_member item P_payload) (fun p => Ok (opt_member p P_text)).

(** [item => item.payload.text] *)
Definition payload_text (item : JsValue) : Outcome JsValue :=
  obind (get_member item P_payload) (fun p => get_member p P_text).

(** [items.filter(item => item.payload?.text)] *)
Fixpoint filter_items (items : list JsValue) : Outcome (list JsValue) :=
  match items with
  | [] => Ok []
  | item :: rest =>
      obind (payload_text_opt item) (fun t =>
      obind (filter_items rest) (fun kept =>
      Ok (if truthy t then item :: kept else kept)))
  end.

(** [items.map(item => item.payload.text)] *)
Fixpoint map_items (items : list JsValue) : Outcome (list JsValue) :=
  match items with
  | [] => Ok []
  | item :: rest =>
      obind (payload_text item) (fun t =>
      obind (map_items rest) (fun texts => Ok (t :: texts)))
  end.

(** The receiver of [.filter(...)]: only an array has the method. *)
Definition filter_receiver (v : JsValue) : Outcome (list JsValue) :=
  match v with
  | VArr items => Ok items
  | _ => Throw (TypeError (lit "res.data.result.filter is not a function"))
  end.

(** The [return] expression of [searchQdrant]. *)
Definition context_of (data : JsValue) : Outcome jsstring :=
  obind (get_member data P_result) (fun result =>
  obind (filter_receiver result) (fun items =>
  obind (filter_items items) (fun kept =>
  obind (map_items kept) (fun texts =>
  Ok (join E separator texts))))).

Definition invalid_search_response : JsError :=
  PlainError (lit "Invalid search response from Qdrant").

Definition searchQdrant (queryVector : JsValue) (topK : float) : M jsstring :=
  res <- axios (search_request queryVector topK) ;;
  if negb (truthy (opt_member (snd res) P_result))
  then
    emit (EvError [VStr (lit "Qdrant search error:"); snd res]) ;;;
    throw invalid_search_response
  else lift (context_of (snd res)).

Definition default_topK : float := 3%float.

(** *** 6. [askGemini] *)

Definition prompt_of (query context : jsstring) : jsstring :=
  lit "Context:" ++ [nl] ++ context ++ [nl; nl] ++ lit "Question: " ++ query
    ++ [nl] ++ lit "Answer:".

Definition ask_request (prompt : jsstring) : Request :=
  {| method := POST;
     url := lit "https://generativelanguage.googleapis.com/v1beta/models/gemini-1.5-flash:generateContent?key="
              ++ tmpl (GEMINI_API_KEY cfg);
     body := VObj [(lit "contents",
                    VArr [VObj [(lit "parts", VArr [VObj [(lit "text", VStr prompt)]]);
                                (lit "role", VStr (lit "user"))]])];
     headers := [(lit "Content-Type", Some (lit "application/json"))];
     timeout := Some 30000%Z |}.

(** [data?.candidates?.[0]?.content?.parts?.[0]?.text] *)
Definition answer_opt (data : JsValue) : JsValue :=
  opt_member
    (opt_index0
       (opt_member
          (opt_member (opt_index0 (opt_member data P_candidates)) P_content)
          P_parts))
    P_text.

(** [data.candidates[0].content.parts[0].text] *)
Definition answer_of (data : JsValue) : Outcome JsValue :=
  obind (get_member data P_candidates) (fun cs =>
  obind (get_index0 cs) (fun c =>
  obind (get_member c P_content) (fun content =>
  obind (get_member content P_parts) (fun ps =>
  obind (get_index0 ps) (fun part => get_member part P_text))))).

(** The fallback answer. *)
Definition fallback : jsstring :=
  0x274C%N :: lit " Sorry, I couldn't process your request. Please check your API key and network connection.".

Definition askGemini (query context : jsstring) : M JsValue :=
  try_catch
    (let prompt := prompt_of query context in
     (if unset (GEMINI_API_KEY cfg)
      then throw (PlainError (lit "Gemini API key is not configured"))
      else ret tt) ;;;
     res <- axios (ask_request prompt) ;;
     if negb (truthy (answer_opt (snd res)))
     then
       emit (EvError [VStr (lit "Unexpected Gemini response:");
                      VStr (json_stringify E (snd res))]) ;;;
       throw (PlainError (lit "Received empty or unexpected response from Gemini"))
     else lift (answer_of (snd res)))
    (fun error =>
       emit (EvError [VStr (nl :: lit "Detailed Gemini API Error:");
                      VObj [(lit "message", VStr (error_message error));
                            (lit "status",
                             match error_status error with
                             | Some st => VNum (float_of_Z st)
                             | None => VUndefined
                             end);
                            (lit "data", error_data error)]]) ;;;
       ret (VStr fallback)).

(** *** 7. [startChat] *)

(** [rl.close()]: the ['close'] listener runs, says goodbye and ends the
    process with code 0. *)
Definition rl_close {A : Type} : M A :=
  emit EvClose ;;;
  emit (EvLog [VStr (nl :: 0xD83D%N :: 0xDC4B%N :: lit " Goodbye!")]) ;;;
  process_exit 0.

(** The ['line'] listener. *)
Definition on_line (line : jsstring) : M unit :=
  let query := trim line in
  if jsstring_eqb (toLowerCase E query) (lit "exit")
  then rl_close
  else
    match query with
    | [] => emit EvPrompt
    | _ =>
        try_catch
          (emit (EvStdout (0xD83E%N :: 0xDD16%N :: lit " Thinking...")) ;;;
           queryEmbedding <- embedWithGemini [query] ;;
           context <- searchQdrant (nth 0 queryEmbedding VUndefined) default_topK ;;
           answer <- askGemini query context ;;
           emit (EvStdout (13%N :: 27%N :: lit "[K")) ;;;
           emit (EvLog [VStr (nl :: 0xD83E%N :: 0xDD16%N :: lit " Gemini:"); answer]))
          (fun err =>
             emit (EvError [VStr (nl :: 0x274C%N :: lit " Error:");
                            VStr (error_message err)])) ;;;
        emit EvPrompt
    end.

(** [startChat()]: greet, set the prompt, show it, and listen. *)
Definition startChat : M unit :=
  emit (EvLog [VStr (nl :: 0xD83D%N :: 0xDCAC%N
                       :: lit " You can now chat with your document. Type 'exit' to quit."
                       ++ [nl])]) ;;;
  emit (EvSetPrompt (lit "You: ")) ;;;
  emit EvPrompt ;;;
  emit EvListen.

(** The lines the user types once the listener is installed, one turn
    after the other: a line is typed when the turn of the line before is
    over. *)
Fixpoint chat (lines : list jsstring) : M unit :=
  match lines with
  | [] => ret tt
  | line :: rest => on_line line ;;; chat rest
  end.

(** What reaches the readline interface: a line, or the end of the input
    stream (the input is exhausted, or the user types Ctrl-D).  At the end
    of the input readline closes the interface, which runs the ['close']
    listener just as [rl.close()] does. *)
Inductive Input : Type :=
| Line (line : jsstring)
| EndOfInput.

Definition on_input (input : Input) : M unit :=
  match input with
  | Line line => on_line line
  | EndOfInput => rl_close
  end.

(** The inputs after the listeners are installed, one after the other. *)
Fixpoint interact (inputs : list Input) : M unit :=
  match inputs with
  | [] => ret tt
  | input :: rest => on_input input ;;; interact rest
  end.

(** *** 8. [main] and the module body *)

Definition models_request : Request :=
  {| method := GET;
     url := lit "https://generativelanguage.googleapis.com/v1beta/models?key="
              ++ tmpl (GEMINI_API_KEY cfg);
     body := VUndefined;
     headers := [];
     timeout := None |}.

(** [chunks.map((_, i) => i + 1)] *)
Definition ids_of {A : Type} (chunks : list A) : list nat :=
  map S (seq 0 (length chunks)).

Definition main : M unit :=
  try_catch
    (emit (EvLog [VStr (lit "Testing Gemini API connection...")]) ;;;
     axios models_request ;;;
     ret tt)
    (fun error =>
       throw (PlainError (lit "Gemini API connection failed: " ++ error_message error))) ;;;
  try_catch
    (text <- fs_readFile (lit "text.txt") ;;
     chunks <- lift (chunkText text 500) ;;
     let ids := ids_of chunks in
     emit (EvLog [VStr (lit "Processing "
                          ++ number_to_string E (float_of_nat (length chunks))
                          ++ lit " chunks...")]) ;;;
     createCollection default_dim ;;;
     embeddings <- embedWithGemini chunks ;;
     upsertToQdrant ids chunks embeddings ;;;
     startChat)
    (fun error =>
       emit (EvError [VStr (lit "Fatal error:"); VStr (error_message error)]) ;;;
       process_exit 1).

(** The module body: the environment check, then [main()]. *)
Definition module_body : M unit :=
  if unset (GEMINI_API_KEY cfg) || unset (QDRANT_API_KEY cfg)
     || unset (QDRANT_HOST cfg) || unset (COLLECTION_NAME cfg)
  then throw (PlainError (lit "Missing required environment variables"))
  else main.

(** Node.js (15 and later, default flags) ends the process with code 1 on
    an exception that reaches the top of the module and on a promise
    rejection nobody handles. *)
Definition node (m : M unit) : M unit :=
  fun w =>
    match m w with
    | (Throw e, w') =>
        (Exit 1, {| requests := requests w'; trace := trace w' ++ [EvUncaught e] |})
    | r => r
    end.

(** [node app.js], then the user's lines. *)
Definition startup : Outcome unit * World := node module_body initial_world.

Definition session (lines : list jsstring) : Outcome unit * World :=
  (node module_body ;;; chat lines) initial_world.

End Program.

(** ** Vocabulary of the statements *)

(** The world after request [r] has been issued from [w]. *)
Definition sent (w : World) (r : Request) : World :=
  {| requests := S (requests w); trace := trace w ++ [EvHttp r] |}.

(** The world after event [ev]. *)
Definition logged (w : World) (ev : Event) : World :=
  {| requests := requests w; trace := trace w ++ [ev] |}.

(** The embedding a settled embedding call carries for [embedWithGemini]:
    the call resolved, its body is not [null] or [undefined], and
    [data.embedding?.values] is truthy. *)
Definition embedding_in (r : AxiosResult) : option JsValue :=
  match r with
  | Rejected _ _ => None
  | Resolved _ d =>
      if nullish d then None
      else
        let v := opt_member (member d P_embedding) P_values in
        if truthy v then Some v else None
  end.

(** [v] is a JSON array of numbers. *)
Definition numeric_vector (v : JsValue) : bool :=
  match v with
  | VArr items =>
      forallb (fun x => match x with VNum _ => true | _ => false end) items
  | _ => false
  end.

(** The response body has the numeric vector field: the JSON document is an
    object whose member [embedding] is an object whose member [values] is an
    array of numbers. *)
Definition has_numeric_vector (d : JsValue) : bool :=
  match d with
  | VObj fields =>
      match lookup (lit "embedding") fields with
      | Some (VObj inner) =>
          match lookup (lit "values") inner with
          | Some v => numeric_vector v
          | None => false
          end
      | _ => false
      end
  | _ => false
  end.

(** Events of the startup phase: everything but the readline interface. *)
Definition batch (ev : Event) : bool :=
  match ev with
  | EvSetPrompt _ | EvPrompt | EvListen | EvClose => false
  | _ => true
  end.

(** [w'] is [w] after [k] more requests and some startup-phase events. *)
Definition extends (w w' : World) (k : nat) : Prop :=
  requests w' = (requests w + k)%nat
  /\ exists tr, trace w' = trace w ++ tr /\ forallb batch tr = true.

(** A call that returned or threw. *)
Definition settled {A : Type} (o : Outcome A) : Prop :=
  match o with
  | Ok _ | Throw _ => True
  | Exit _ | Hang => False
  end.

(** An engine whose [toLowerCase] handles ASCII only; enough to run the
    program on concrete inputs. *)
Definition ascii_engine : Engine :=
  {| number_to_string := fun _ => lit "0";
     json_stringify := fun _ => lit "{}";
     toLowerCase := map ascii_lower;
     toLowerCase_ascii := fun s _ => eq_refl |}.

(** Sample data: a configuration with every variable set. *)
Definition test_config : Config :=
  {| GEMINI_API_KEY := Some (lit "g-key");
     QDRANT_API_KEY := Some (lit "q-key");
     QDRANT_HOST := Some (lit "https://qdrant.test");
     COLLECTION_NAME := Some (lit "docs") |}.

(** An environment whose every request settles to [r], with a ten-letter
    document. *)
Definition always (r : AxiosResult) : Env :=
  {| http := fun _ _ => r; readFile := fun _ => inl (lit "ABCDEFGHIJ") |}.

(** The two lines [createCollection] logs on success. *)
Definition created_log : Event :=
  EvLog [VStr (0x2705%N :: lit " Collection created or already exists.")].

Definition exists_log : Event :=
  EvLog [VStr (0x2139%N :: 0xFE0F%N :: lit " Collection already exists")].

(** [item.payload?.text] of a result item that is an object (or any value
    but [null] and [undefined]). *)
Definition item_text (item : JsValue) : JsValue :=
  opt_member (member item P_payload) P_text.

(** The payload texts [searchQdrant] keeps, in the order of the result. *)
Definition context_texts (items : list JsValue) : list JsValue :=
  map item_text (filter (fun item => truthy (item_text item)) items).

(** Strings joined with a separator. *)
Fixpoint intercalate (sep : jsstring) (ts : list jsstring) : jsstring :=
  match ts with
  | [] => []
  | t :: r =>
      t ++ match r with
           | [] => []
           | _ => sep ++ intercalate sep r
           end
  end.

(** A call that returned, or threw a [TypeError]. *)
Definition type_errors_only {A : Type} (o : Outcome A) : Prop :=
  match o with
  | Ok _ | Throw (TypeError _) => True
  | _ => False
  end.

(** Equality of strings up to the case of ASCII letters. *)
Definition caseless_eqb (a b : jsstring) : bool :=
  jsstring_eqb (map ascii_lower a) (map ascii_lower b).

(** What [askGemini] logs in its [catch] block. *)
Definition ask_error_log (error : JsError) : Event :=
  EvError [VStr (nl :: lit "Detailed Gemini API Error:");
           VObj [(lit "message", VStr (error_message error));
                 (lit "status",
                  match error_status error with
                  | Some st => VNum (float_of_Z st)
                  | None => VUndefined
                  end);
                 (lit "data", error_data error)]].

(** What the ['line'] listener writes around a turn. *)
Definition thinking : Event :=
  EvStdout (0xD83E%N :: 0xDD16%N :: lit " Thinking...").

Definition clear_line : Event := EvStdout (13%N :: 27%N :: lit "[K").

Definition answer_log (answer : JsValue) : Event :=
  EvLog [VStr (nl :: 0xD83E%N :: 0xDD16%N :: lit " Gemini:"); answer].

Definition turn_error_log (err : JsError) : Event :=
  EvError [VStr (nl :: 0x274C%N :: lit " Error:"); VStr (error_message err)].

Definition goodbye : Event :=
  EvLog [VStr (nl :: 0xD83D%N :: 0xDC4B%N :: lit " Goodbye!")].

(** The two errors [askGemini] throws inside its [try] block. *)
Definition key_error : JsError :=
  PlainError (lit "Gemini API key is not configured").

Definition unexpected_error : JsError :=
  PlainError (lit "Received empty or unexpected response from Gemini").

(** A generation failure at world [w]: the key is not configured, or the
    generation request is rejected, or the answer path
    [candidates[0].content.parts[0].text] of the response holds nothing
    truthy (in particular when it is missing). *)
Definition generation_fails (env : Env) (cfg : Config) (w : World)
           (query context : jsstring) : Prop :=
  unset (GEMINI_API_KEY cfg) = true
  \/ match http env (requests w) (ask_request cfg (prompt_of query context)) with
     | Rejected _ _ => True
     | Resolved _ d => truthy (answer_opt d) = false
     end.

(** A search result with three points, the second without payload text. *)
Definition sample_hits : JsValue :=
  VObj [(lit "result",
         VArr [VObj [(lit "id", VNum 1%float);
                     (lit "payload", VObj [(lit "text", VStr (lit "ABCD"))])];
               VObj [(lit "id", VNum 2%float); (lit "payload", VObj [])];
               VObj [(lit "id", VNum 3%float);
                     (lit "payload", VObj [(lit "text", VStr (lit "IJ"))])]])].

(** What [main] and [startChat] log. *)
Definition testing_log : Event :=
  EvLog [VStr (lit "Testing Gemini API connection...")].

Definition processing_log (E : Engine) (chunks : list jsstring) : Event :=
  EvLog [VStr (lit "Processing "
                 ++ number_to_string E (float_of_nat (length chunks))
                 ++ lit " chunks...")].

Definition fatal_log (error : JsError) : Event :=
  EvError [VStr (lit "Fatal error:"); VStr (error_message error)].

Definition connection_error (error : JsError) : JsError :=
  PlainError (lit "Gemini API connection failed: " ++ error_message error).

(** The chunks [main] indexes: the text cut every 500 code units. *)
Definition startup_chunks (text : jsstring) : list jsstring :=
  windows (S (length text)) (Z.to_nat 500) text.

(** The batch [main] upserts for a document and the embeddings of its
    chunks: ids 1, 2, ..., the embeddings and the chunks. *)
Definition startup_points (text : jsstring) (embeddings : list JsValue)
  : list JsValue :=
  points_from 0 (ids_of (startup_chunks text)) (startup_chunks text) embeddings.

(** Nothing fails during startup: every variable is set, the connectivity
    check (request 0) resolves, the document is read, the creation of the
    collection (request 1) resolves or is rejected with status 409, every
    chunk's embedding call (requests 2, 3, ...) carries an embedding, and
    the upsert of the batch made of these embeddings (the request after
    them) resolves. *)
Definition startup_succeeded (env : Env) (cfg : Config) : Prop :=
  unset (GEMINI_API_KEY cfg) = false
  /\ unset (QDRANT_API_KEY cfg) = false
  /\ unset (QDRANT_HOST cfg) = false
  /\ unset (COLLECTION_NAME cfg) = false
  /\ (exists st d, http env 0 (models_request cfg) = Resolved st d)
  /\ exists text embeddings,
      readFile env (lit "text.txt") = inl text
      /\ ((exists st d, http env 1 (create_request cfg default_dim) = Resolved st d)
          \/ (exists m d, http env 1 (create_request cfg default_dim)
                          = Rejected m (Some (409%Z, d))))
      /\ length embeddings = length (startup_chunks text)
      /\ (forall i chunk,
             nth_error (startup_chunks text) i = Some chunk ->
             embedding_in (http env (2 + i) (embed_request cfg chunk))
             = nth_error embeddings i)
      /\ (exists st d,
             http env (2 + length (startup_chunks text))
                  (upsert_request cfg (startup_points text embeddings))
             = Resolved st d).

(** The input ends the session: the end of the input, or a line that is the
    exit word once trimmed and lower-cased. *)
Definition stops (E : Engine) (input : Input) : bool :=
  match input with
  | Line line => jsstring_eqb (toLowerCase E (trim line)) (lit "exit")
  | EndOfInput => true
  end.

Definition is_prompt (ev : Event) : bool :=
  match ev with
  | EvPrompt => true
  | _ => false
  end.

(** The number of times the prompt was shown. *)
Definition prompts (tr : list Event) : nat := length (filter is_prompt tr).

(** An environment that rejects an upsert when its batch holds a point and
    accepts everything else. *)
Definition rejects_batches : Env :=
  {| http := fun _ r =>
               match method r, body r with
               | PUT, VObj [(_, VArr (_ :: _))] =>
                   Rejected (lit "Request failed with status code 400")
                            (Some (400%Z, VObj [(lit "status", VStr (lit "error"))]))
               | _, _ =>
                   Resolved 200
                     (VObj [(lit "embedding", VObj [(lit "values", VArr [VNum 0.5%float])])])
               end;
     readFile := fun _ => inl (lit "ABCDEFGHIJ") |}.

(** The process ended with code 1 and the interactive loop was never
    entered: no listener installed, no prompt shown. *)
Definition fatal (r : Outcome unit * World) : Prop :=
  fst r = Exit 1
  /\ ~ In EvListen (trace (snd r))
  /\ ~ In EvPrompt (trace (snd r)).

(** The body of a response that serves every request of a run: it has an
    embedding, an empty search result and an answer. *)
Definition sample_body : JsValue :=
  VObj [(lit "embedding", VObj [(lit "values", VArr [VNum 0.5%float])]);
        (lit "result", VArr []);
        (lit "candidates",
         VArr [VObj [(lit "content",
                      VObj [(lit "parts", VArr [VObj [(lit "text", VStr (lit "42"))]])])]])].

(** An environment in which request [k] settles to [r] and every other
    request is served [sample_body], with the same ten-letter document. *)
Definition except_request (k : nat) (r : AxiosResult) : Env :=
  {| http := fun n _ => if (n =? k)%nat then r else Resolved 200 sample_body;
     readFile := fun _ => inl (lit "ABCDEFGHIJ") |}.

(** An environment without the document. *)
Definition no_document : Env :=
  {| http := fun _ _ => Resolved 200 sample_body;
     readFile := fun _ => inr (lit "ENOENT: no such file or directory, open 'text.txt'") |}.

(** The error [embedWithGemini] stops with at a call that carries no
    embedding: the rejection itself, the [TypeError] of reading [embedding]
    from a [null] or [undefined] body, or the client's own
    "Invalid response" error. *)
Definition embed_failure (r : AxiosResult) : JsError :=
  match r with
  | Rejected m resp => AxiosError m resp
  | Resolved _ d =>
      match get_member d P_embedding with
      | Throw e => e
      | _ => PlainError (lit "Invalid response from Gemini API")
      end
  end.

(** What [embedWithGemini] logs in its [catch] block. *)
Definition embed_error_log (error : JsError) : Event :=
  EvError [VStr (lit "Error in embedWithGemini:"); VStr (error_message error)].

(** The point [upsertToQdrant] builds at index [k] for [id]. *)
Definition point_at (k id : nat) (texts : list jsstring) (embeddings : list JsValue)
  : JsValue :=
  VObj [(lit "id", VNum (float_of_nat id));
        (lit "vector", nth k embeddings VUndefined);
        (lit "payload",
         VObj [(lit "text",
                match nth_error texts k with
                | Some t => VStr t
                | None => VUndefined
                end)])].

(** The request is a bulk upsert: a [PUT] whose body is an object with the
    member [points] first. *)
Definition is_upsert (ev : Event) : bool :=
  match ev with
  | EvHttp r =>
      match method r, body r with
      | PUT, VObj ((k, _) :: _) => jsstring_eqb k (lit "points")
      | _, _ => false
      end
  | _ => false
  end.

(** * Properties *)

(** ** Segmenter *)

Section SegmenterFacts.

Context {A : Type}.
Implicit Types (text l : list A) (size i : Z) (n fuel : nat).

Lemma slice_window text size i :
  (0 < size)%Z -> (0 <= i)%Z -> (i < Z.of_nat (length text))%Z ->
  slice text i (i + size) = firstn (Z.to_nat size) (skipn (Z.to_nat i) text).
Proof.
  intros Hs Hi Hlt. unfold slice.
  destruct (Z.ltb_spec i 0) as [?|_]; [lia|].
  destruct (Z.ltb_spec (i + size) 0) as [?|_]; [lia|].
  rewrite (Z.min_l i) by lia.
  set (rest := skipn (Z.to_nat i) text).
  assert (Hlen : length rest = (length text - Z.to_nat i)%nat)
    by (unfold rest; apply length_skipn).
  destruct (Z.le_ge_cases (i + size) (Z.of_nat (length text))) as [Hle|Hge].
  - rewrite Z.min_l by lia. f_equal. lia.
  - rewrite Z.min_r by lia.
    rewrite !firstn_all2; trivial; lia.
Qed.

Lemma windows_nonempty fuel n l :
  l <> [] -> windows (S fuel) n l <> [].
Proof. destruct l; simpl; congruence. Qed.

(** The loop computes [windows] as soon as the fuel exceeds the number of
    code units left. *)
Lemma chunk_loop_windows text size :
  (0 < size)%Z ->
  forall fuel i chunks,
    (0 <= i)%Z ->
    (length (skipn (Z.to_nat i) text) < fuel)%nat ->
    chunk_loop fuel text size i chunks
    = Some (chunks ++ windows fuel (Z.to_nat size) (skipn (Z.to_nat i) text)).
Proof.
  intros Hs. induction fuel as [|fuel IH]; intros i chunks Hi Hfuel; [lia|].
  simpl chunk_loop.
  destruct (Z.ltb_spec i (Z.of_nat (length text))) as [Hlt|Hge].
  - rewrite IH; try lia.
    + rewrite slice_window by assumption.
      rewrite <- app_assoc. simpl app. do 2 f_equal.
      simpl windows.
      destruct (skipn (Z.to_nat i) text) eqn:Hrest.
      * apply (f_equal (@length A)) in Hrest.
        rewrite length_skipn in Hrest. simpl in Hrest. lia.
      * rewrite <- Hrest. f_equal. f_equal.
        rewrite skipn_skipn. f_equal. lia.
    + rewrite length_skipn in *. lia.
  - rewrite skipn_all2 by lia.
    simpl. now rewrite app_nil_r.
Qed.

(** With a size that is not positive the loop variable never passes the
    end of a non-empty text. *)
Lemma chunk_loop_diverges text size :
  (size <= 0)%Z -> text <> [] ->
  forall fuel i chunks, (i <= 0)%Z -> chunk_loop fuel text size i chunks = None.
Proof.
  intros Hs Hne. induction fuel as [|fuel IH]; intros i chunks Hi; [reflexivity|].
  simpl. destruct (Z.ltb_spec i (Z.of_nat (length text))) as [_|Hge].
  - apply IH. lia.
  - destruct text; [congruence|simpl in Hge; lia].
Qed.

Lemma windows_concat n :
  (0 < n)%nat ->
  forall fuel l, (length l < fuel)%nat -> concat (windows fuel n l) = l.
Proof.
  intros Hn. induction fuel as [|fuel IH]; intros l Hl; [lia|].
  destruct l as [|a l']; [reflexivity|].
  simpl windows. remember (a :: l') as l eqn:El.
  simpl concat. rewrite IH.
  - apply firstn_skipn.
  - rewrite length_skipn. subst l; cbn [length] in *. lia.
Qed.

Lemma windows_full n :
  (0 < n)%nat ->
  forall fuel l k,
    (length l < fuel)%nat ->
    (S k < length (windows fuel n l))%nat ->
    length (nth k (windows fuel n l) []) = n.
Proof.
  intros Hn. induction fuel as [|fuel IH]; intros l k Hl Hk; [lia|].
  destruct l as [|a l']; [simpl in Hk; lia|].
  simpl windows in *. remember (a :: l') as l eqn:El.
  assert (Hrest : (length (skipn n l) < fuel)%nat)
    by (rewrite length_skipn; subst l; cbn [length] in *; lia).
  simpl in Hk. destruct k as [|k].
  - simpl. rewrite length_firstn.
    destruct (skipn n l) as [|b r] eqn:Hsk.
    + destruct fuel; simpl in Hk; lia.
    + apply (f_equal (@length A)) in Hsk. rewrite length_skipn in Hsk.
      simpl in Hsk. lia.
  - simpl. apply IH; [assumption|lia].
Qed.

Lemma windows_last n :
  (0 < n)%nat ->
  forall fuel l,
    (length l < fuel)%nat -> l <> [] ->
    length (last (windows fuel n l) [])
    = if (length l mod n =? 0)%nat then n else (length l mod n)%nat.
Proof.
  intros Hn. induction fuel as [|fuel IH]; intros l Hl Hne; [lia|].
  destruct l as [|a l']; [congruence|].
  simpl windows. remember (a :: l') as l eqn:El.
  assert (Hpos : (0 < length l)%nat) by (subst l; simpl; lia).
  destruct (skipn n l) as [|b r] eqn:Hsk.
  - assert (Hle : (length l <= n)%nat).
    { apply (f_equal (@length A)) in Hsk. rewrite length_skipn in Hsk.
      simpl in Hsk. lia. }
    destruct fuel; simpl; rewrite length_firstn, Nat.min_r by lia.
    + lia.
    + destruct (Nat.eq_dec (length l) n) as [->|Hlt].
      * rewrite Nat.Div0.mod_same. reflexivity.
      * rewrite Nat.mod_small by lia.
        destruct (Nat.eqb_spec (length l) 0); lia.
  - assert (Hlen : (length (b :: r) = length l - n)%nat)
      by (rewrite <- Hsk; apply length_skipn).
    assert (Hge : (n < length l)%nat) by (simpl in Hlen; lia).
    destruct fuel as [|fuel]; [lia|].
    assert (Hw : windows (S fuel) n (b :: r) <> []) by (apply windows_nonempty; congruence).
    change (last (firstn n l :: windows (S fuel) n (b :: r)) [])
      with (match windows (S fuel) n (b :: r) with
            | [] => firstn n l
            | _ => last (windows (S fuel) n (b :: r)) []
            end).
    destruct (windows (S fuel) n (b :: r)) eqn:Ew; [congruence|].
    rewrite <- Ew. rewrite IH; [|lia|congruence].
    rewrite Hlen.
    assert (Hmod : ((length l - n) mod n = length l mod n)%nat).
    { rewrite <- (Nat.Div0.mod_add (length l - n) 1 n). f_equal. lia. }
    now rewrite Hmod.
Qed.

End SegmenterFacts.

Section SegmenterCapacity.

Context {A : Type}.
Implicit Types (text : list A) (size i : Z) (capacity fuel : nat).

Lemma chunk_loop_grows text size :
  forall fuel i chunks result,
    chunk_loop fuel text size i chunks = Some result ->
    (length chunks <= length result)%nat.
Proof.
  induction fuel as [|fuel IH]; intros i chunks result H; [discriminate|].
  cbn [chunk_loop] in H.
  destruct (i <? Z.of_nat (length text))%Z.
  - apply IH in H. rewrite length_app in H. cbn [length] in H. lia.
  - injection H as ->. lia.
Qed.

(** When the loop ends with an array that fits, the capacity plays no
    part. *)
Lemma chunk_loop_capped_agrees capacity text size :
  forall fuel i chunks result,
    chunk_loop fuel text size i chunks = Some result ->
    (length result <= capacity)%nat ->
    chunk_loop_capped capacity fuel text size i chunks = Some (Ok result).
Proof.
  induction fuel as [|fuel IH]; intros i chunks result H Hfit; [discriminate|].
  cbn [chunk_loop chunk_loop_capped] in H |- *.
  destruct (i <? Z.of_nat (length text))%Z.
  - pose proof (chunk_loop_grows _ _ _ _ _ H) as Hgrow.
    rewrite length_app in Hgrow. cbn [length] in Hgrow.
    destruct (Nat.ltb_spec (length chunks) capacity); [|lia].
    now apply IH.
  - now injection H as ->.
Qed.

(** When the loop condition cannot fail, the array fills up and the next
    [push] throws, whatever the capacity; the loop never returns. *)
Lemma chunk_loop_capped_overflow text size :
  (size <= 0)%Z -> text <> [] ->
  forall capacity fuel i chunks,
    (i <= 0)%Z ->
    (length chunks <= capacity)%nat ->
    (capacity - length chunks < fuel)%nat ->
    chunk_loop_capped capacity fuel text size i chunks
    = Some (Throw invalid_array_length).
Proof.
  intros Hs Hne capacity.
  induction fuel as [|fuel IH]; intros i chunks Hi Hfit Hfuel; [lia|].
  cbn [chunk_loop_capped].
  destruct (Z.ltb_spec i (Z.of_nat (length text))) as [_|Hge].
  - destruct (Nat.ltb_spec (length chunks) capacity) as [Hroom|_]; [|reflexivity].
    apply IH; [lia| |]; rewrite length_app; cbn [length]; lia.
  - destruct text; [congruence|cbn [length] in Hge; lia].
Qed.

Lemma chunk_loop_capped_no_return text size :
  (size <= 0)%Z -> text <> [] ->
  forall capacity fuel i chunks result,
    (i <= 0)%Z ->
    chunk_loop_capped capacity fuel text size i chunks <> Some (Ok result).
Proof.
  intros Hs Hne capacity.
  induction fuel as [|fuel IH]; intros i chunks result Hi; [discriminate|].
  cbn [chunk_loop_capped].
  destruct (Z.ltb_spec i (Z.of_nat (length text))) as [_|Hge].
  - destruct (length chunks <? capacity)%nat; [|discriminate].
    apply IH. lia.
  - destruct text; [congruence|cbn [length] in Hge; lia].
Qed.

End SegmenterCapacity.

Section SegmenterClaims.

Implicit Types (T : jsstring) (size : Z).

Lemma windows_fuel {A : Type} (n : nat) :
  (0 < n)%nat ->
  forall (f1 f2 : nat) (l : list A),
    (length l < f1)%nat -> (length l < f2)%nat ->
    windows f1 n l = windows f2 n l.
Proof.
  intros Hn. induction f1 as [|f1 IH]; intros f2 l H1 H2; [lia|].
  destruct f2 as [|f2]; [lia|].
  destruct l as [|a l']; [reflexivity|].
  simpl windows. remember (a :: l') as l eqn:El. f_equal.
  apply IH; rewrite length_skipn; subst l; cbn [length] in *; lia.
Qed.

Lemma chunkText_windows T size :
  (0 < size)%Z ->
  chunkText T size = Ok (windows (S (length T)) (Z.to_nat size) T)
  /\ forall fuel, (length T < fuel)%nat ->
       chunk_loop fuel T size 0 [] = Some (windows (S (length T)) (Z.to_nat size) T).
Proof.
  intros Hs.
  assert (Hloop : forall fuel, (length T < fuel)%nat ->
            chunk_loop fuel T size 0 []
            = Some (windows (S (length T)) (Z.to_nat size) T)).
  { intros fuel Hf.
    rewrite (chunk_loop_windows T Hs (i := 0)) by (simpl; lia).
    change (skipn (Z.to_nat 0) T) with T. cbn [app].
    f_equal. apply windows_fuel; lia. }
  split; [|exact Hloop].
  unfold chunkText. now rewrite Hloop by lia.
Qed.

(** C1.  For a positive size, [chunkText] returns (the loop ends, whatever
    fuel beyond the length of the text it is given, with the same array);
    the chunks concatenated in order are the text; every chunk before the
    last has [size] code units; the last one has [length T mod size] of
    them, or [size] when that is zero; and the empty text has no chunk. *)
Theorem chunkText_partition T size :
  (0 < size)%Z ->
  exists chunks,
    chunkText T size = Ok chunks
    /\ (forall fuel, (length T < fuel)%nat ->
          chunk_loop fuel T size 0 [] = Some chunks)
    /\ concat chunks = T
    /\ (forall k, (S k < length chunks)%nat ->
          Z.of_nat (length (nth k chunks [])) = size)
    /\ (T <> [] ->
        Z.of_nat (length (last chunks []))
        = if (Z.of_nat (length T) mod size =? 0)%Z
          then size
          else (Z.of_nat (length T) mod size)%Z)
    /\ (T = [] -> chunks = []).
Proof.
  intros Hs.
  assert (Hn : (0 < Z.to_nat size)%nat) by lia.
  destruct (chunkText_windows T Hs) as [Hrun Hloop].
  exists (windows (S (length T)) (Z.to_nat size) T).
  repeat split; trivial.
  - apply windows_concat; lia.
  - intros k Hk. rewrite windows_full; trivial; lia.
  - intros Hne. rewrite windows_last; trivial; try lia.
    replace (Z.of_nat (length T) mod size)%Z
      with (Z.of_nat (length T mod Z.to_nat size)).
    + destruct (Nat.eqb_spec (length T mod Z.to_nat size) 0) as [E0|E0];
        destruct (Z.eqb_spec (Z.of_nat (length T mod Z.to_nat size)) 0); lia.
    + rewrite Nat2Z.inj_mod. f_equal. lia.
  - intros ->. reflexivity.
Qed.

Lemma chunkText_partition_witness :
  exists chunks,
    chunkText (lit "ABCDEFGHIJ") 4 = Ok chunks
    /\ (forall fuel, (length (lit "ABCDEFGHIJ") < fuel)%nat ->
          chunk_loop fuel (lit "ABCDEFGHIJ") 4 0 [] = Some chunks)
    /\ concat chunks = lit "ABCDEFGHIJ"
    /\ (forall k, (S k < length chunks)%nat ->
          Z.of_nat (length (nth k chunks [])) = 4%Z)
    /\ (lit "ABCDEFGHIJ" <> [] ->
        Z.of_nat (length (last chunks []))
        = if (Z.of_nat (length (lit "ABCDEFGHIJ")) mod 4 =? 0)%Z
          then 4%Z
          else (Z.of_nat (length (lit "ABCDEFGHIJ")) mod 4)%Z)
    /\ (lit "ABCDEFGHIJ" = [] -> chunks = []).
Proof. apply (chunkText_partition (lit "ABCDEFGHIJ") (size := 4)). reflexivity. Defined.

(** The end-to-end scenario of the segmenter. *)
Example chunkText_ABCDEFGHIJ :
  chunkText (lit "ABCDEFGHIJ") 4 = Ok [lit "ABCD"; lit "EFGH"; lit "IJ"]
  /\ ids_of [lit "ABCD"; lit "EFGH"; lit "IJ"] = [1; 2; 3]%nat.
Proof. split; reflexivity. Qed.

(** C2, as the code has it.  [chunkText] has no check of its size.  A
    size that is not positive is not rejected on the empty text: the call
    returns the empty array.  For a positive size the call always returns,
    and returns the same array however long the loop is allowed to run.  So
    a call can fail only with a size that is not positive, on a non-empty
    text, and then not by a check: the only error is the engine's
    [RangeError]. *)
Theorem chunkText_no_size_check T size :
  ((size <= 0)%Z -> T = [] -> chunkText T size = Ok [])
  /\ ((0 < size)%Z ->
      exists chunks,
        chunkText T size = Ok chunks
        /\ forall fuel, (length T < fuel)%nat ->
             chunk_loop fuel T size 0 [] = Some chunks)
  /\ (forall e,
         chunkText T size = Throw e ->
         (size <= 0)%Z /\ T <> [] /\ e = invalid_array_length).
Proof.
  split; [intros _ ->; reflexivity|]. split.
  - intros Hs. destruct (chunkText_windows T Hs) as [Hrun Hloop]. eauto.
  - intros e He.
    destruct (Z.lt_ge_cases 0 size) as [Hs|Hs].
    + destruct (chunkText_windows T Hs) as [Hrun _]. congruence.
    + split; [lia|]. split.
      * intros ->. discriminate.
      * unfold chunkText in He.
        destruct (chunk_loop (S (length T)) T size 0 []); congruence.
Qed.

(** C2 as stated fails: on the empty text the sizes 0 and -1 are not
    rejected, the call returns the empty array. *)
Lemma chunkText_invalid_size_not_rejected :
  chunkText (lit "") 0 = Ok []
  /\ chunkText (lit "") (-1) = Ok [].
Proof. split; reflexivity. Qed.

End SegmenterClaims.

(** ** Strings *)

Lemma jsstring_eqb_eq a b : jsstring_eqb a b = true <-> a = b.
Proof.
  unfold jsstring_eqb. destruct (list_eq_dec N.eq_dec a b); split; congruence.
Qed.

Lemma jsstring_eqb_neq a b : jsstring_eqb a b = false <-> a <> b.
Proof.
  unfold jsstring_eqb. destruct (list_eq_dec N.eq_dec a b); split; congruence.
Qed.

(** ** Property reads *)

Lemma get_member_nullish v p :
  nullish v = false -> get_member v p = Ok (member v p).
Proof. destruct v; simpl; congruence. Qed.

Lemma get_member_throws v p :
  nullish v = true -> exists m, get_member v p = Throw (TypeError m).
Proof. destruct v; simpl; try discriminate; eauto. Qed.

Lemma truthy_opt_member v p :
  truthy (opt_member v p) = true ->
  nullish v = false /\ opt_member v p = member v p.
Proof. destruct v; simpl; try discriminate; auto. Qed.

Lemma truthy_opt_index0 v :
  truthy (opt_index0 v) = true ->
  nullish v = false /\ get_index0 v = Ok (opt_index0 v).
Proof. destruct v; simpl; try discriminate; auto. Qed.

Lemma truthy_not_nullish v : truthy v = true -> nullish v = false.
Proof. destruct v; simpl; congruence. Qed.

(** ** Worlds *)

Lemma extends_refl w : extends w w 0.
Proof.
  split; [lia|]. exists []. now rewrite app_nil_r.
Qed.

Lemma extends_trans w1 w2 w3 j k :
  extends w1 w2 j -> extends w2 w3 k -> extends w1 w3 (j + k).
Proof.
  intros [R1 (t1 & T1 & B1)] [R2 (t2 & T2 & B2)]. split; [lia|].
  exists (t1 ++ t2). rewrite T2, T1, app_assoc, forallb_app, B1, B2. auto.
Qed.

Lemma extends_sent w r : extends w (sent w r) 1.
Proof. split; [simpl; lia|]. now exists [EvHttp r]. Qed.

Lemma extends_logged w ev : batch ev = true -> extends w (logged w ev) 0.
Proof.
  intros Hb. split; [simpl; lia|]. exists [ev]. simpl. now rewrite Hb.
Qed.

Lemma extends_quiet w w' k ev :
  extends w w' k -> batch ev = false -> ~ In ev (trace w) -> ~ In ev (trace w').
Proof.
  intros [_ (tr & -> & Hb)] Hev Hw Hin.
  apply in_app_or in Hin as [Hin|Hin]; [tauto|].
  rewrite forallb_forall in Hb. apply Hb in Hin. congruence.
Qed.

(** ** Embedding client *)

Section EmbeddingFacts.

Variable E : Engine.
Variable env : Env.
Variable cfg : Config.

(** One turn of the loop: the request leaves, and the loop goes on exactly
    when the settled call carries an embedding. *)
Lemma embed_loop_cons text rest acc w :
  embed_loop env cfg (text :: rest) acc w
  = let w' := sent w (embed_request cfg text) in
    match http env (requests w) (embed_request cfg text) with
    | Rejected m resp => (Throw (AxiosError m resp), w')
    | Resolved st d =>
        match embedding_in (Resolved st d) with
        | Some v => embed_loop env cfg rest (acc ++ [v]) w'
        | None =>
            (match get_member d P_embedding with
             | Ok _ => Throw (PlainError (lit "Invalid response from Gemini API"))
             | Throw e => Throw e
             | Exit c => Exit c
             | Hang => Hang
             end, w')
        end
    end.
Proof.
  cbn [embed_loop]. unfold bind at 1, axios, sent.
  destruct (http env (requests w) (embed_request cfg text)) as [st d|m resp];
    [|reflexivity].
  cbn [snd embedding_in]. unfold bind at 1, lift at 1.
  destruct (nullish d) eqn:Hd.
  - destruct (get_member_throws d P_embedding Hd) as [m ->]. reflexivity.
  - rewrite (get_member_nullish _ _ Hd).
    cbv zeta.
    destruct (truthy (opt_member (member d P_embedding) P_values)) eqn:Ht;
      cbn [negb]; [|reflexivity].
    destruct (truthy_opt_member _ _ Ht) as [Hn Hm].
    unfold bind at 1, lift at 1. cbn [obind].
    rewrite (get_member_nullish _ _ Hn), Hm. reflexivity.
Qed.

(** The loop issues the requests in order and either returns one
    embedding per text, each the one its own call carries, or stops with
    an error at the first call that carries none. *)
Lemma embed_loop_cases texts :
  forall acc w,
    (exists vs w',
        embed_loop env cfg texts acc w = (Ok (acc ++ vs), w')
        /\ length vs = length texts
        /\ (forall i text, nth_error texts i = Some text ->
              nth_error vs i
              = embedding_in (http env (requests w + i) (embed_request cfg text)))
        /\ requests w' = (requests w + length texts)%nat
        /\ trace w' = trace w ++ map (fun t => EvHttp (embed_request cfg t)) texts)
    \/ (exists e w' i text,
           embed_loop env cfg texts acc w = (Throw e, w')
           /\ nth_error texts i = Some text
           /\ embedding_in (http env (requests w + i) (embed_request cfg text)) = None
           /\ requests w' = (requests w + S i)%nat
           /\ trace w'
              = trace w ++ map (fun t => EvHttp (embed_request cfg t)) (firstn (S i) texts)).
Proof.
  induction texts as [|text rest IH]; intros acc w.
  - left. exists [], w. cbn. rewrite !app_nil_r.
    repeat split; trivial; try lia.
    intros [|i] t; discriminate.
  - rewrite embed_loop_cons. cbv zeta.
    destruct (embedding_in (http env (requests w) (embed_request cfg text)))
      as [v|] eqn:Hv.
    + destruct (http env (requests w) (embed_request cfg text)) as [st d|m resp] eqn:Hr;
        [|discriminate].
      rewrite Hv.
      destruct (IH (acc ++ [v]) (sent w (embed_request cfg text)))
        as [(vs & w' & Hrun & Hlen & Hnth & Hreq & Htr)
           |(e & w' & i & t & Hrun & Hi & Hnone & Hreq & Htr)].
      * left. exists (v :: vs), w'. rewrite Hrun, <- app_assoc.
        repeat split; cbn [length]; try lia.
        -- intros [|i] t Hi; cbn in Hi |- *.
           ++ injection Hi as <-. rewrite Nat.add_0_r, Hr. now rewrite Hv.
           ++ rewrite (Hnth i t Hi). cbn [requests sent].
              now replace (S (requests w) + i)%nat with (requests w + S i)%nat by lia.
        -- rewrite Hreq. cbn. lia.
        -- rewrite Htr. cbn. now rewrite <- app_assoc.
      * right. exists e, w', (S i), t. rewrite Hrun.
        repeat split; trivial.
        -- rewrite <- Hnone. cbn [requests sent].
           now replace (S (requests w) + i)%nat with (requests w + S i)%nat by lia.
        -- rewrite Hreq. cbn. lia.
        -- rewrite Htr. cbn. now rewrite <- app_assoc.
    + right.
      assert (Hrun : exists e,
                 match http env (requests w) (embed_request cfg text) with
                 | Resolved st d =>
                     match embedding_in (Resolved st d) with
                     | Some v => embed_loop env cfg rest (acc ++ [v]) (sent w (embed_request cfg text))
                     | None =>
                         (match get_member d P_embedding with
                          | Ok _ => Throw (PlainError (lit "Invalid response from Gemini API"))
                          | Throw e => Throw e
                          | Exit c => Exit c
                          | Hang => Hang
                          end, sent w (embed_request cfg text))
                     end
                 | Rejected m resp =>
                     (Throw (AxiosError m resp), sent w (embed_request cfg text))
                 end = (Throw e, sent w (embed_request cfg text))).
      { destruct (http env (requests w) (embed_request cfg text)) as [st d|m resp];
          [|eauto].
        rewrite Hv.
        destruct d; cbn; eauto. }
      destruct Hrun as [e Hrun].
      exists e, (sent w (embed_request cfg text)), 0%nat, text. rewrite Hrun.
      repeat split; trivial.
      * now rewrite Nat.add_0_r.
      * cbn. lia.
Qed.

End EmbeddingFacts.

Lemma batch_requests (f : jsstring -> Request) (l : list jsstring) :
  forallb batch (map (fun t => EvHttp (f t)) l) = true.
Proof. induction l; simpl; auto. Qed.

Section EmbeddingClaims.

Variable E : Engine.
Variable env : Env.
Variable cfg : Config.

(** [embedWithGemini] is the loop, with a thrown error logged and thrown
    again. *)
Lemma embedWithGemini_cases texts w :
  (exists vs w',
      embedWithGemini env cfg texts w = (Ok vs, w')
      /\ length vs = length texts
      /\ (forall i text, nth_error texts i = Some text ->
            nth_error vs i
            = embedding_in (http env (requests w + i) (embed_request cfg text)))
      /\ trace w' = trace w ++ map (fun t => EvHttp (embed_request cfg t)) texts
      /\ extends w w' (length texts))
  \/ (exists e w' i text,
         embedWithGemini env cfg texts w = (Throw e, w')
         /\ nth_error texts i = Some text
         /\ embedding_in (http env (requests w + i) (embed_request cfg text)) = None
         /\ extends w w' (S i)).
Proof.
  unfold embedWithGemini, try_catch.
  destruct (embed_loop_cases env cfg texts [] w)
    as [(vs & w' & Hrun & Hlen & Hnth & Hreq & Htr)
       |(e & w' & i & t & Hrun & Hi & Hnone & Hreq & Htr)];
    rewrite Hrun.
  - left. exists vs, w'. repeat split; trivial.
    exists (map (fun t => EvHttp (embed_request cfg t)) texts).
    split; [assumption|apply batch_requests].
  - right. eexists e, _, i, t. split; [reflexivity|].
    repeat split; trivial.
    eexists. cbn. rewrite Htr, <- app_assoc. split; [reflexivity|].
    rewrite forallb_app, batch_requests. reflexivity.
Qed.

Lemma embedWithGemini_settled texts w :
  settled (fst (embedWithGemini env cfg texts w))
  /\ exists k, extends w (snd (embedWithGemini env cfg texts w)) k.
Proof.
  destruct (embedWithGemini_cases texts w)
    as [(vs & w' & -> & _ & _ & _ & Hext)|(e & w' & i & t & -> & _ & _ & Hext)];
    simpl; eauto.
Qed.

(** C3, as the code has it.  A successful call returns exactly one value
    per input text, in input order: the [i]-th is the embedding carried by
    the [i]-th call, which was made for the [i]-th text.  The call
    succeeds when every per-text call carries an embedding, and aborts
    with an error (it returns nothing) as soon as one does not.  A call
    carries an embedding when it resolved, its body is not [null] or
    [undefined], and [embedding?.values] of the body is truthy: a rejected
    call, a JSON object without [embedding], and an [embedding] object
    without [values] carry none; a body with a numeric vector at
    [embedding.values] carries that vector. *)
Theorem embedWithGemini_all_or_nothing texts w :
  (forall vs w',
      embedWithGemini env cfg texts w = (Ok vs, w') ->
      length vs = length texts
      /\ (forall i text, nth_error texts i = Some text ->
            nth_error vs i
            = embedding_in (http env (requests w + i) (embed_request cfg text)))
      /\ trace w' = trace w ++ map (fun t => EvHttp (embed_request cfg t)) texts)
  /\ ((forall i text, nth_error texts i = Some text ->
         embedding_in (http env (requests w + i) (embed_request cfg text)) <> None) ->
      exists vs w', embedWithGemini env cfg texts w = (Ok vs, w'))
  /\ (forall i text,
         nth_error texts i = Some text ->
         embedding_in (http env (requests w + i) (embed_request cfg text)) = None ->
         exists e w', embedWithGemini env cfg texts w = (Throw e, w'))
  /\ (forall m resp, embedding_in (Rejected m resp) = None)
  /\ (forall st fields,
         lookup (lit "embedding") fields = None ->
         embedding_in (Resolved st (VObj fields)) = None)
  /\ (forall st fields inner,
         lookup (lit "embedding") fields = Some (VObj inner) ->
         lookup (lit "values") inner = None ->
         embedding_in (Resolved st (VObj fields)) = None)
  /\ (forall st d,
         has_numeric_vector d = true ->
         exists v, embedding_in (Resolved st d) = Some v /\ numeric_vector v = true).
Proof.
  pose proof (embedWithGemini_cases texts w) as Hcases.
  split; [|split; [|split; [|split; [|split; [|split]]]]].
  - intros vs w' Hrun.
    destruct Hcases as [(vs0 & w0 & Hrun0 & Hlen & Hnth & Htr & _)
                       |(e & w0 & i & t & Hrun0 & _)];
      rewrite Hrun in Hrun0; [|discriminate].
    injection Hrun0 as <- <-. auto.
  - intros Hall.
    destruct Hcases as [(vs0 & w0 & Hrun0 & _)|(e & w0 & i & t & _ & Hi & Hnone & _)];
      [eauto|].
    now destruct (Hall i t Hi).
  - intros i text Hi Hnone.
    destruct Hcases as [(vs0 & w0 & _ & Hlen & Hnth & _)|(e & w0 & _ & _ & Hrun0 & _)];
      [|eauto].
    assert (Hsome : nth_error vs0 i <> None).
    { apply nth_error_Some. rewrite Hlen. apply nth_error_Some. congruence. }
    rewrite (Hnth i text Hi) in Hsome. contradiction.
  - reflexivity.
  - intros st fields Hl. unfold embedding_in.
    cbn [nullish member prop_key]. now rewrite Hl.
  - intros st fields inner Hl Hv. unfold embedding_in.
    cbn [nullish member prop_key]. rewrite Hl.
    cbn [opt_member nullish member prop_key]. now rewrite Hv.
  - intros st d Hd. destruct d as [| | | | | |fields|]; try discriminate.
    unfold has_numeric_vector in Hd. unfold embedding_in.
    cbn [nullish member prop_key].
    destruct (lookup (lit "embedding") fields) as [[| | | | | |inner|]|];
      try discriminate.
    cbn [opt_member nullish member prop_key].
    destruct (lookup (lit "values") inner) as [v|]; [|discriminate].
    destruct v; try discriminate. cbn [truthy]. eauto.
Qed.

(** C3 as stated fails: a body whose [embedding.values] is a string, and a
    body whose [embedding] is an array (so that [.values] reads
    [Array.prototype.values]), lack the numeric vector field, yet the call
    succeeds and returns the string, respectively the function. *)
Lemma embedWithGemini_accepts_non_vector :
  let d1 := VObj [(lit "embedding", VObj [(lit "values", VStr (lit "oops"))])] in
  let d2 := VObj [(lit "embedding", VArr [VNum 0.5%float])] in
  has_numeric_vector d1 = false
  /\ fst (embedWithGemini (always (Resolved 200 d1)) test_config [lit "a"] initial_world)
     = Ok [VStr (lit "oops")]
  /\ has_numeric_vector d2 = false
  /\ fst (embedWithGemini (always (Resolved 200 d2)) test_config [lit "a"] initial_world)
     = Ok [VFun (lit "values")].
Proof. repeat split; vm_compute; reflexivity. Qed.

End EmbeddingClaims.

(** ** Vector store client: [createCollection] *)

Section CollectionClaims.

Variable env : Env.
Variable cfg : Config.

Lemma createCollection_run dim w :
  createCollection env cfg dim w
  = let w' := sent w (create_request cfg dim) in
    match http env (requests w) (create_request cfg dim) with
    | Resolved _ _ => (Ok tt, logged w' created_log)
    | Rejected m resp =>
        if status_is (AxiosError m resp) 409
        then (Ok tt, logged w' exists_log)
        else (Throw (AxiosError m resp),
              logged w' (EvError [VStr (lit "Error creating collection:"); VStr m]))
    end.
Proof.
  unfold createCollection, try_catch, bind, axios.
  destruct (http env (requests w) (create_request cfg dim)) as [st d|m resp];
    [reflexivity|].
  cbv zeta. destruct (status_is (AxiosError m resp) 409); reflexivity.
Qed.

Lemma createCollection_settled dim w :
  settled (fst (createCollection env cfg dim w))
  /\ extends w (snd (createCollection env cfg dim w)) 1.
Proof.
  rewrite createCollection_run. cbv zeta.
  assert (Hext : forall ev, batch ev = true ->
            extends w (logged (sent w (create_request cfg dim)) ev) 1).
  { intros ev Hb. change 1%nat with (1 + 0)%nat.
    eapply extends_trans; [apply extends_sent|now apply extends_logged]. }
  destruct (http env (requests w) (create_request cfg dim)) as [st d|m resp];
    [|destruct (status_is (AxiosError m resp) 409)];
    simpl; split; trivial; now apply Hext.
Qed.

(** C9.  A rejection whose response has status 409 is a success, and so is
    a resolved call; every other rejection is thrown again unchanged.  So
    a second creation, which the provider answers with 409 because the
    first one created the collection, does not raise. *)
Theorem createCollection_idempotent dim w :
  (forall m d,
      http env (requests w) (create_request cfg dim) = Rejected m (Some (409%Z, d)) ->
      fst (createCollection env cfg dim w) = Ok tt)
  /\ (forall st d,
         http env (requests w) (create_request cfg dim) = Resolved st d ->
         fst (createCollection env cfg dim w) = Ok tt)
  /\ (forall m resp,
         http env (requests w) (create_request cfg dim) = Rejected m resp ->
         error_status (AxiosError m resp) <> Some 409%Z ->
         fst (createCollection env cfg dim w) = Throw (AxiosError m resp))
  /\ (forall st d m d',
         http env (requests w) (create_request cfg dim) = Resolved st d ->
         http env (S (requests w)) (create_request cfg dim)
         = Rejected m (Some (409%Z, d')) ->
         fst ((createCollection env cfg dim ;;; createCollection env cfg dim) w)
         = Ok tt).
Proof.
  repeat split.
  - intros m d H. rewrite createCollection_run, H. reflexivity.
  - intros st d H. rewrite createCollection_run, H. reflexivity.
  - intros m resp H Hst. rewrite createCollection_run, H. cbv zeta.
    unfold status_is.
    destruct (error_status (AxiosError m resp)) as [st|] eqn:Est; [|reflexivity].
    destruct (Z.eqb_spec st 409) as [->|_]; [congruence|reflexivity].
  - intros st d m d' H1 H2. unfold bind at 1.
    rewrite createCollection_run, H1. cbv beta iota zeta.
    rewrite createCollection_run. cbn [requests logged sent].
    rewrite H2. reflexivity.
Qed.

End CollectionClaims.

(** A provider that creates the collection on the first request and answers
    every later one with 409 Conflict: creating twice succeeds twice. *)
Example createCollection_twice :
  let provider :=
    {| http := fun n _ =>
                 match n with
                 | O => Resolved 200 (VObj [(lit "result", VBool true)])
                 | _ => Rejected (lit "Request failed with status code 409")
                                 (Some (409%Z, VObj []))
                 end;
       readFile := fun _ => inr (lit "ENOENT") |} in
  fst ((createCollection provider test_config default_dim ;;;
        createCollection provider test_config default_dim) initial_world)
  = Ok tt.
Proof. vm_compute. reflexivity. Qed.

(** ** Vector store client: [upsertToQdrant] and [searchQdrant] *)

Lemma obind_type_errors {A B : Type} (o : Outcome A) (f : A -> Outcome B) :
  type_errors_only o -> (forall a, type_errors_only (f a)) ->
  type_errors_only (obind o f).
Proof. destruct o as [a|[]| |]; simpl; auto; contradiction. Qed.

Lemma get_member_type_errors v p : type_errors_only (get_member v p).
Proof. destruct v; simpl; exact I. Qed.

Lemma type_errors_settled {A : Type} (o : Outcome A) :
  type_errors_only o -> settled o.
Proof. destruct o as [a|[]| |]; simpl; auto. Qed.

Section SearchFacts.

Variable E : Engine.
Variable env : Env.
Variable cfg : Config.

Lemma upsertToQdrant_run ids texts embeddings w :
  upsertToQdrant E env cfg ids texts embeddings w
  = let points := points_from 0 ids texts embeddings in
    let w' := sent w (upsert_request cfg points) in
    match http env (requests w) (upsert_request cfg points) with
    | Resolved _ _ =>
        (Ok tt,
         logged w' (EvLog [VStr (0x2705%N :: lit " "
                                   ++ number_to_string E (float_of_nat (length points))
                                   ++ lit " embeddings uploaded to Qdrant.")]))
    | Rejected m resp =>
        (Throw (AxiosError m resp),
         logged w' (EvError [VStr (lit "Error upserting to Qdrant:"); VStr m]))
    end.
Proof.
  unfold upsertToQdrant, try_catch, bind, axios. cbv zeta.
  destruct (http env (requests w)
              (upsert_request cfg (points_from 0 ids texts embeddings)));
    reflexivity.
Qed.

Lemma upsertToQdrant_settled ids texts embeddings w :
  settled (fst (upsertToQdrant E env cfg ids texts embeddings w))
  /\ extends w (snd (upsertToQdrant E env cfg ids texts embeddings w)) 1.
Proof.
  rewrite upsertToQdrant_run. cbv zeta.
  destruct (http env (requests w) _); simpl; split; trivial;
    change 1%nat with (1 + 0)%nat;
    (eapply extends_trans; [apply extends_sent|now apply extends_logged]).
Qed.

Lemma filter_items_type_errors items : type_errors_only (filter_items items).
Proof.
  induction items as [|item rest IH]; simpl; [exact I|].
  apply obind_type_errors.
  - unfold payload_text_opt. apply obind_type_errors.
    + apply get_member_type_errors.
    + intros; exact I.
  - intros t. apply obind_type_errors; [assumption|intros; exact I].
Qed.

Lemma map_items_type_errors items : type_errors_only (map_items items).
Proof.
  induction items as [|item rest IH]; simpl; [exact I|].
  apply obind_type_errors.
  - unfold payload_text. apply obind_type_errors.
    + apply get_member_type_errors.
    + intros; apply get_member_type_errors.
  - intros t. apply obind_type_errors; [assumption|intros; exact I].
Qed.

Lemma context_of_type_errors d : type_errors_only (context_of E d).
Proof.
  unfold context_of.
  apply obind_type_errors; [apply get_member_type_errors|intros result].
  apply obind_type_errors;
    [destruct result; simpl; exact I|intros items].
  apply obind_type_errors; [apply filter_items_type_errors|intros kept].
  apply obind_type_errors; [apply map_items_type_errors|intros; exact I].
Qed.

(** On items that are not [null] or [undefined] the callback of [filter]
    does not throw, and [filter] keeps the items with a truthy text. *)
Lemma filter_items_ok items :
  Forall (fun item => nullish item = false) items ->
  filter_items items = Ok (filter (fun item => truthy (item_text item)) items).
Proof.
  induction 1 as [|item rest Hn _ IH]; [reflexivity|].
  cbn [filter_items filter]. unfold payload_text_opt.
  rewrite (get_member_nullish _ _ Hn). cbn [obind].
  rewrite IH. reflexivity.
Qed.

(** On the kept items the callback of [map] does not throw either. *)
Lemma map_items_ok items :
  Forall (fun item => nullish item = false) items ->
  Forall (fun item => truthy (item_text item) = true) items ->
  map_items items = Ok (map item_text items).
Proof.
  induction 1 as [|item rest Hn _ IH]; intros Ht; [reflexivity|].
  inversion Ht as [|? ? Hitem Hrest]; subst.
  cbn [map_items map]. unfold payload_text.
  rewrite (get_member_nullish _ _ Hn). cbn [obind].
  destruct (truthy_opt_member _ _ Hitem) as [Hp Heq].
  rewrite (get_member_nullish _ _ Hp). cbn [obind].
  rewrite IH by assumption. cbn [obind]. do 2 f_equal. exact (eq_sym Heq).
Qed.

Lemma context_of_items d items :
  opt_member d P_result = VArr items ->
  Forall (fun item => nullish item = false) items ->
  context_of E d = Ok (join E separator (context_texts items)).
Proof.
  intros Hres Hitems. unfold context_of.
  assert (Ht : truthy (opt_member d P_result) = true) by now rewrite Hres.
  destruct (truthy_opt_member _ _ Ht) as [Hd Heq].
  rewrite (get_member_nullish _ _ Hd), <- Heq, Hres. cbn [obind filter_receiver].
  rewrite filter_items_ok by assumption. cbn [obind].
  rewrite map_items_ok.
  - reflexivity.
  - apply Forall_forall. intros x Hx. apply filter_In in Hx as [Hx _].
    rewrite Forall_forall in Hitems. auto.
  - apply Forall_forall. intros x Hx. now apply filter_In in Hx as [_ Hx].
Qed.

Lemma searchQdrant_run queryVector topK w :
  searchQdrant E env cfg queryVector topK w
  = let w' := sent w (search_request cfg queryVector topK) in
    match http env (requests w) (search_request cfg queryVector topK) with
    | Rejected m resp => (Throw (AxiosError m resp), w')
    | Resolved _ d =>
        if truthy (opt_member d P_result)
        then (context_of E d, w')
        else (Throw invalid_search_response,
              logged w' (EvError [VStr (lit "Qdrant search error:"); d]))
    end.
Proof.
  unfold searchQdrant, bind at 1, axios.
  destruct (http env (requests w) (search_request cfg queryVector topK))
    as [st d|m resp]; [|reflexivity].
  cbn [snd]. cbv zeta.
  destruct (truthy (opt_member d P_result)); reflexivity.
Qed.

Lemma searchQdrant_settled queryVector topK w :
  settled (fst (searchQdrant E env cfg queryVector topK w))
  /\ exists k, extends w (snd (searchQdrant E env cfg queryVector topK w)) k.
Proof.
  rewrite searchQdrant_run. cbv zeta.
  destruct (http env (requests w) _) as [st d|m resp];
    [destruct (truthy (opt_member d P_result))|]; simpl.
  - split; [apply type_errors_settled, context_of_type_errors|].
    eexists; apply extends_sent.
  - split; trivial. exists (1 + 0)%nat.
    eapply extends_trans; [apply extends_sent|now apply extends_logged].
  - split; trivial. eexists; apply extends_sent.
Qed.

End SearchFacts.

Section SearchClaims.

Variable E : Engine.
Variable env : Env.
Variable cfg : Config.

Lemma join_strings sep ts : join E sep (map VStr ts) = intercalate sep ts.
Proof.
  induction ts as [|t r IH]; [reflexivity|].
  cbn [map join intercalate nullish to_string]. f_equal.
  destruct r as [|t' r']; [reflexivity|].
  rewrite <- IH. reflexivity.
Qed.

Lemma context_texts_strings items ts :
  Forall2 (fun item t => nullish item = false /\ item_text item = VStr t /\ t <> [])
          items ts ->
  context_texts items = map VStr ts.
Proof.
  unfold context_texts.
  induction 1 as [|item t items ts (_ & Ht & Hne) _ IH]; [reflexivity|].
  cbn [filter]. rewrite Ht. destruct t as [|c t]; [congruence|].
  cbn [truthy map]. now rewrite Ht, IH.
Qed.



(** C5, as the code has it.  Once the request has resolved, the protocol
    error (the [Error] "Invalid search response from Qdrant") is raised
    exactly when [res.data?.result] is falsy, which includes a body
    without a [result] member; a rejected request raises the rejection
    instead.  An empty result list is not an error and gives the empty
    context; a list of items that each carry a non-empty payload text
    gives those texts, in the order of the list, joined with the
    separator. *)
Theorem searchQdrant_protocol queryVector topK w :
  (fst (searchQdrant E env cfg queryVector topK w) = Throw invalid_search_response
   <-> exists st d,
        http env (requests w) (search_request cfg queryVector topK) = Resolved st d
        /\ truthy (opt_member d P_result) = false)
  /\ (forall st fields,
         http env (requests w) (search_request cfg queryVector topK)
         = Resolved st (VObj fields) ->
         lookup (lit "result") fields = None ->
         fst (searchQdrant E env cfg queryVector topK w) = Throw invalid_search_response)
  /\ (forall st d,
         http env (requests w) (search_request cfg queryVector topK) = Resolved st d ->
         opt_member d P_result = VArr [] ->
         fst (searchQdrant E env cfg queryVector topK w) = Ok [])
  /\ (forall st d items ts,
         http env (requests w) (search_request cfg queryVector topK) = Resolved st d ->
         opt_member d P_result = VArr items ->
         Forall2 (fun item t =>
                    nullish item = false /\ item_text item = VStr t /\ t <> [])
                 items ts ->
         fst (searchQdrant E env cfg queryVector topK w)
         = Ok (intercalate separator ts)).
Proof.
  repeat split.
  - rewrite searchQdrant_run. cbv zeta.
    destruct (http env (requests w) (search_request cfg queryVector topK))
      as [st d|m resp]; [|discriminate].
    destruct (truthy (opt_member d P_result)) eqn:Ht; [|eauto].
    cbn [fst]. intros Hctx.
    pose proof (context_of_type_errors E d) as Hty.
    rewrite Hctx in Hty. contradiction.
  - intros (st & d & Hr & Ht). now rewrite searchQdrant_run, Hr, Ht.
  - intros st fields Hr Hl. rewrite searchQdrant_run, Hr.
    cbn [opt_member nullish member prop_key]. now rewrite Hl.
  - intros st d Hr Hres. rewrite searchQdrant_run, Hr, Hres. cbn [truthy fst].
    now rewrite (context_of_items E d Hres) by constructor.
  - intros st d items ts Hr Hres Hitems.
    rewrite searchQdrant_run, Hr, Hres. cbn [truthy fst].
    rewrite (context_of_items E d Hres).
    + now rewrite (context_texts_strings Hitems), join_strings.
    + clear -Hitems. induction Hitems as [|? ? ? ? (Hn & _) _ IH]; auto.
Qed.


End SearchClaims.


(** The end-to-end scenario of the search: the texts that are there, joined
    with the separator. *)
Example searchQdrant_sample :
  fst (searchQdrant ascii_engine (always (Resolved 200 sample_hits)) test_config
                    VUndefined default_topK initial_world)
  = Ok (lit "ABCD" ++ [nl; nl] ++ lit "---" ++ [nl; nl] ++ lit "IJ").
Proof. vm_compute. reflexivity. Qed.

(** C5 as stated fails.  A body whose [result] member is there but is [0]
    raises the protocol error; a body whose [result] is an object, and one
    whose [result] is a list holding [null], raise a [TypeError] although the
    [result] member is there. *)
Lemma searchQdrant_error_with_result_field :
  let run d :=
    fst (searchQdrant ascii_engine (always (Resolved 200 d)) test_config
                      VUndefined default_topK initial_world) in
  lookup (lit "result") [(lit "result", VNum 0%float)] = Some (VNum 0%float)
  /\ run (VObj [(lit "result", VNum 0%float)]) = Throw invalid_search_response
  /\ run (VObj [(lit "result", VObj [])])
     = Throw (TypeError (lit "res.data.result.filter is not a function"))
  /\ run (VObj [(lit "result", VArr [VNull])])
     = Throw (TypeError (lit "Cannot read properties of null (reading 'payload')")).
Proof. repeat split; vm_compute; reflexivity. Qed.

(** ** Answer generator client *)

Lemma opt_member_get v p :
  nullish (opt_member v p) = false -> get_member v p = Ok (opt_member v p).
Proof. destruct v; simpl; try discriminate; reflexivity. Qed.

Lemma opt_index0_get v :
  nullish (opt_index0 v) = false -> get_index0 v = Ok (opt_index0 v).
Proof. destruct v; simpl; try discriminate; reflexivity. Qed.

Lemma opt_member_nullish v p :
  nullish v = true -> nullish (opt_member v p) = true.
Proof. destruct v; simpl; try discriminate; reflexivity. Qed.

Lemma opt_index0_nullish v :
  nullish v = true -> nullish (opt_index0 v) = true.
Proof. destruct v; simpl; try discriminate; reflexivity. Qed.

(** When the optional chain finds a truthy text, the plain chain of the
    [return] statement reads the same value and does not throw. *)
Lemma answer_of_opt d :
  truthy (answer_opt d) = true -> answer_of d = Ok (answer_opt d).
Proof.
  unfold answer_opt, answer_of. intros Ht.
  apply truthy_not_nullish in Ht.
  set (cs := opt_member d P_candidates) in *.
  set (c := opt_index0 cs) in *.
  set (content := opt_member c P_content) in *.
  set (ps := opt_member content P_parts) in *.
  set (part := opt_index0 ps) in *.
  assert (Hpart : nullish part = false).
  { destruct (nullish part) eqn:H; [|reflexivity].
    now rewrite (opt_member_nullish _ P_text H) in Ht. }
  assert (Hps : nullish ps = false).
  { destruct (nullish ps) eqn:H; [|reflexivity].
    unfold part in Hpart. now rewrite (opt_index0_nullish _ H) in Hpart. }
  assert (Hcontent : nullish content = false).
  { destruct (nullish content) eqn:H; [|reflexivity].
    unfold ps in Hps. now rewrite (opt_member_nullish _ P_parts H) in Hps. }
  assert (Hc : nullish c = false).
  { destruct (nullish c) eqn:H; [|reflexivity].
    unfold content in Hcontent. now rewrite (opt_member_nullish _ P_content H) in Hcontent. }
  assert (Hcs : nullish cs = false).
  { destruct (nullish cs) eqn:H; [|reflexivity].
    unfold c in Hc. now rewrite (opt_index0_nullish _ H) in Hc. }
  rewrite (opt_member_get d P_candidates Hcs). cbn [obind]. fold cs.
  rewrite (opt_index0_get cs Hc). cbn [obind]. fold c.
  rewrite (opt_member_get c P_content Hcontent). cbn [obind]. fold content.
  rewrite (opt_member_get content P_parts Hps). cbn [obind]. fold ps.
  rewrite (opt_index0_get ps Hpart). cbn [obind]. fold part.
  now rewrite (opt_member_get part P_text Ht).
Qed.

Section GeneratorFacts.

Variable E : Engine.
Variable env : Env.
Variable cfg : Config.

Lemma askGemini_run query context w :
  askGemini E env cfg query context w
  = if unset (GEMINI_API_KEY cfg)
    then (Ok (VStr fallback), logged w (ask_error_log key_error))
    else
      let r := ask_request cfg (prompt_of query context) in
      match http env (requests w) r with
      | Rejected m resp =>
          (Ok (VStr fallback), logged (sent w r) (ask_error_log (AxiosError m resp)))
      | Resolved _ d =>
          if truthy (answer_opt d)
          then (Ok (answer_opt d), sent w r)
          else
            (Ok (VStr fallback),
             logged (logged (sent w r)
                            (EvError [VStr (lit "Unexpected Gemini response:");
                                      VStr (json_stringify E d)]))
                    (ask_error_log unexpected_error))
      end.
Proof.
  unfold askGemini, try_catch. cbv zeta. unfold bind at 1.
  destruct (unset (GEMINI_API_KEY cfg)); [reflexivity|].
  unfold ret at 1, bind at 1, axios.
  destruct (http env (requests w) (ask_request cfg (prompt_of query context)))
    as [st d|m resp]; [|reflexivity].
  cbn [snd].
  destruct (truthy (answer_opt d)) eqn:Ht; cbn [negb].
  - unfold lift. now rewrite (answer_of_opt d Ht).
  - reflexivity.
Qed.

(** [askGemini] always returns. *)
Lemma askGemini_returns query context w :
  exists answer w' k,
    askGemini E env cfg query context w = (Ok answer, w') /\ extends w w' k.
Proof.
  rewrite askGemini_run.
  destruct (unset (GEMINI_API_KEY cfg)).
  - eexists _, _, _. split; [reflexivity|]. now apply extends_logged.
  - cbv zeta.
    destruct (http env (requests w) _) as [st d|m resp];
      [destruct (truthy (answer_opt d))|];
      eexists _, _, _; (split; [reflexivity|]).
    + apply extends_sent.
    + eapply extends_trans; [apply extends_sent|].
      eapply extends_trans; now apply extends_logged.
    + eapply extends_trans; [apply extends_sent|now apply extends_logged].
Qed.

End GeneratorFacts.

(** ** The interactive loop *)

Section ChatFacts.

Variable E : Engine.
Variable env : Env.
Variable cfg : Config.

(** A turn on a real query: think, embed, search, ask, print; whatever is
    thrown on the way is printed instead; then prompt again. *)
Lemma on_line_turn line w :
  toLowerCase E (trim line) <> lit "exit" ->
  trim line <> [] ->
  on_line E env cfg line w
  = match embedWithGemini env cfg [trim line] (logged w thinking) with
    | (Ok queryEmbedding, w2) =>
        match searchQdrant E env cfg (nth 0 queryEmbedding VUndefined)
                           default_topK w2 with
        | (Ok context, w3) =>
            match askGemini E env cfg (trim line) context w3 with
            | (Ok answer, w4) =>
                (Ok tt, logged (logged (logged w4 clear_line) (answer_log answer))
                               EvPrompt)
            | (Throw e, w4) => (Ok tt, logged (logged w4 (turn_error_log e)) EvPrompt)
            | (Exit c, w4) => (Exit c, w4)
            | (Hang, w4) => (Hang, w4)
            end
        | (Throw e, w3) => (Ok tt, logged (logged w3 (turn_error_log e)) EvPrompt)
        | (Exit c, w3) => (Exit c, w3)
        | (Hang, w3) => (Hang, w3)
        end
    | (Throw e, w2) => (Ok tt, logged (logged w2 (turn_error_log e)) EvPrompt)
    | (Exit c, w2) => (Exit c, w2)
    | (Hang, w2) => (Hang, w2)
    end.
Proof.
  intros Hexit Hne. unfold on_line. cbv zeta.
  destruct (jsstring_eqb (toLowerCase E (trim line)) (lit "exit")) eqn:Heq.
  { apply jsstring_eqb_eq in Heq. contradiction. }
  destruct (trim line) as [|c q] eqn:Hq; [congruence|].
  unfold bind, try_catch, emit, logged, thinking. cbv beta iota.
  match goal with
  | |- context [embedWithGemini env cfg ?t ?w0] =>
      destruct (embedWithGemini env cfg t w0) as [[qe|e|code|] w2]
  end; try reflexivity.
  destruct (searchQdrant E env cfg (nth 0 qe VUndefined) default_topK w2)
    as [[ctx|e|code|] w3]; try reflexivity.
  destruct (askGemini E env cfg (c :: q) ctx w3)
    as [[answer|e|code|] w4]; reflexivity.
Qed.

(** A turn returns, with the prompt shown last, unless the line is the
    exit word. *)
Lemma on_line_returns line w :
  toLowerCase E (trim line) <> lit "exit" ->
  exists w', on_line E env cfg line w = (Ok tt, w')
             /\ exists tr, trace w' = tr ++ [EvPrompt].
Proof.
  intros Hexit.
  destruct (trim line) as [|c q] eqn:Hq.
  - unfold on_line. cbv zeta. rewrite Hq.
    destruct (jsstring_eqb (toLowerCase E []) (lit "exit")) eqn:Heq.
    { apply jsstring_eqb_eq in Heq. contradiction. }
    eexists. split; [reflexivity|]. now exists (trace w).
  - rewrite on_line_turn by congruence. rewrite Hq.
    match goal with
    | |- context [embedWithGemini env cfg ?t ?w0] =>
        pose proof (embedWithGemini_settled env cfg t w0) as [He _];
        destruct (embedWithGemini env cfg t w0) as [[qe|e|code|] w2]
    end; cbn [fst] in He; try contradiction.
    + match goal with
      | |- context [searchQdrant E env cfg ?v ?k ?w0] =>
          pose proof (searchQdrant_settled E env cfg v k w0) as [Hs _];
          destruct (searchQdrant E env cfg v k w0) as [[ctx|e|code|] w3]
      end; cbn [fst] in Hs; try contradiction.
      * match goal with
        | |- context [askGemini E env cfg ?t ?c0 ?w0] =>
            destruct (askGemini_returns E env cfg t c0 w0)
              as (answer & w4 & k & -> & _)
        end.
        eexists. split; [reflexivity|]. eexists. reflexivity.
      * eexists. split; [reflexivity|]. eexists. reflexivity.
    + eexists. split; [reflexivity|]. eexists. reflexivity.
Qed.

End ChatFacts.

Lemma ascii_lower_ascii c :
  is_ascii_unit (ascii_lower c) = true -> is_ascii_unit c = true.
Proof.
  unfold is_ascii_unit, ascii_lower.
  destruct ((65 <=? c) && (c <=? 90))%N eqn:Hc; [|trivial].
  intros _. apply andb_prop in Hc as [_ Hc].
  apply N.leb_le in Hc. apply N.ltb_lt. lia.
Qed.

Lemma map_lower_ascii q :
  forallb is_ascii_unit (map ascii_lower q) = true -> forallb is_ascii_unit q = true.
Proof.
  induction q as [|c q IH]; [trivial|].
  cbn [map forallb]. intros H. apply andb_prop in H as [Hc Hq].
  now rewrite (ascii_lower_ascii c Hc), IH.
Qed.

Lemma trimStart_whitespace s :
  forallb is_js_whitespace s = true -> trimStart s = [].
Proof.
  induction s as [|c s IH]; [trivial|].
  cbn [forallb trimStart]. intros H. apply andb_prop in H as [-> Hs]. auto.
Qed.

Lemma trim_whitespace s : forallb is_js_whitespace s = true -> trim s = [].
Proof. intros H. unfold trim. now rewrite (trimStart_whitespace s H). Qed.

Section ChatClaims.

Variable E : Engine.
Variable env : Env.
Variable cfg : Config.

(** The engine lower-cases every ASCII spelling of the exit word to it. *)
Lemma toLowerCase_exit q :
  caseless_eqb q (lit "exit") = true -> toLowerCase E q = lit "exit".
Proof.
  unfold caseless_eqb. intros H. apply jsstring_eqb_eq in H.
  change (map ascii_lower (lit "exit")) with (lit "exit") in H.
  rewrite toLowerCase_ascii; [exact H|].
  apply map_lower_ascii. rewrite H. reflexivity.
Qed.

Lemma on_line_exit line w :
  toLowerCase E (trim line) = lit "exit" ->
  on_line E env cfg line w
  = (Exit 0, {| requests := requests w; trace := trace w ++ [EvClose; goodbye] |}).
Proof.
  intros H. unfold on_line. cbv zeta. rewrite H.
  change (jsstring_eqb (lit "exit") (lit "exit")) with true. cbv iota.
  unfold rl_close, bind, emit, process_exit, lift. cbn [requests trace].
  now rewrite <- app_assoc.
Qed.

Lemma on_line_empty line w :
  trim line = [] -> on_line E env cfg line w = (Ok tt, logged w EvPrompt).
Proof.
  intros H. unfold on_line. cbv zeta. rewrite H.
  rewrite (toLowerCase_ascii E []) by reflexivity. reflexivity.
Qed.

(** C6.  A line that trims to nothing (an empty or whitespace-only line)
    only shows the prompt again; a line that trims to the exit word in any
    case closes the interface, says goodbye and ends the process with
    code 0.  Neither issues a request. *)
Theorem on_line_empty_or_exit line w :
  (trim line = [] ->
   exists w', on_line E env cfg line w = (Ok tt, w')
              /\ trace w' = trace w ++ [EvPrompt]
              /\ requests w' = requests w)
  /\ (forallb is_js_whitespace line = true -> trim line = [])
  /\ (caseless_eqb (trim line) (lit "exit") = true ->
      exists w', on_line E env cfg line w = (Exit 0, w')
                 /\ trace w' = trace w ++ [EvClose; goodbye]
                 /\ requests w' = requests w)
  /\ (forall rest,
         caseless_eqb (trim line) (lit "exit") = true ->
         fst (chat E env cfg (line :: rest) w) = Exit 0).
Proof.
  repeat split.
  - intros H. rewrite (on_line_empty line w H). eexists. repeat split.
  - apply trim_whitespace.
  - intros H. rewrite (on_line_exit line w (toLowerCase_exit _ H)).
    eexists. repeat split.
  - intros rest H. cbn [chat]. unfold bind.
    now rewrite (on_line_exit line w (toLowerCase_exit _ H)).
Qed.

(** C7.  A turn on any line but the exit word returns with the prompt
    shown last, and the next lines are handled after it.  When embedding
    the query throws, or embedding returns and the search throws, the
    error is caught in that turn: its message is printed, then the prompt
    is shown. *)
Theorem turn_errors_caught line w :
  toLowerCase E (trim line) <> lit "exit" ->
  exists w',
    on_line E env cfg line w = (Ok tt, w')
    /\ (exists tr, trace w' = tr ++ [EvPrompt])
    /\ (forall rest, chat E env cfg (line :: rest) w = chat E env cfg rest w')
    /\ (forall e w2,
           trim line <> [] ->
           embedWithGemini env cfg [trim line] (logged w thinking) = (Throw e, w2) ->
           w' = logged (logged w2 (turn_error_log e)) EvPrompt)
    /\ (forall queryEmbedding w2 e w3,
           trim line <> [] ->
           embedWithGemini env cfg [trim line] (logged w thinking)
           = (Ok queryEmbedding, w2) ->
           searchQdrant E env cfg (nth 0 queryEmbedding VUndefined) default_topK w2
           = (Throw e, w3) ->
           w' = logged (logged w3 (turn_error_log e)) EvPrompt).
Proof.
  intros Hexit.
  destruct (@on_line_returns E env cfg line w Hexit) as (w' & Hrun & Hlast).
  exists w'. repeat split; trivial.
  - intros rest. cbn [chat]. unfold bind. now rewrite Hrun.
  - intros e w2 Hne Hemb.
    rewrite (@on_line_turn E env cfg line w Hexit Hne), Hemb in Hrun. congruence.
  - intros qe w2 e w3 Hne Hemb Hsearch.
    rewrite (@on_line_turn E env cfg line w Hexit Hne), Hemb, Hsearch in Hrun.
    congruence.
Qed.

(** C4.  [askGemini] always returns a value: it never throws and never
    ends the process.  On a generation failure (no key, a rejected
    request, or a response whose answer path is missing or holds nothing
    truthy) the value is the fallback string.  In a turn whose retrieval
    succeeded, such a failure prints the fallback as the answer, shows the
    prompt, and the next lines are handled. *)
Theorem askGemini_never_fails query context w :
  (exists answer w', askGemini E env cfg query context w = (Ok answer, w'))
  /\ (generation_fails env cfg w query context ->
      fst (askGemini E env cfg query context w) = Ok (VStr fallback))
  /\ (forall st d,
         http env (requests w) (ask_request cfg (prompt_of query context))
         = Resolved st d ->
         answer_opt d = VUndefined ->
         fst (askGemini E env cfg query context w) = Ok (VStr fallback))
  /\ (forall line w0 queryEmbedding w2,
         toLowerCase E (trim line) <> lit "exit" ->
         trim line <> [] ->
         query = trim line ->
         embedWithGemini env cfg [trim line] (logged w0 thinking)
         = (Ok queryEmbedding, w2) ->
         searchQdrant E env cfg (nth 0 queryEmbedding VUndefined) default_topK w2
         = (Ok context, w) ->
         generation_fails env cfg w query context ->
         exists w4,
           on_line E env cfg line w0
           = (Ok tt, logged (logged (logged w4 clear_line) (answer_log (VStr fallback)))
                            EvPrompt)
           /\ forall rest,
               chat E env cfg (line :: rest) w0
               = chat E env cfg rest
                      (logged (logged (logged w4 clear_line)
                                      (answer_log (VStr fallback))) EvPrompt)).
Proof.
  assert (Hfail : generation_fails env cfg w query context ->
                  fst (askGemini E env cfg query context w) = Ok (VStr fallback)).
  { intros [Hkey|Hreq]; rewrite askGemini_run.
    - now rewrite Hkey.
    - destruct (unset (GEMINI_API_KEY cfg)); [reflexivity|]. cbv zeta.
      destruct (http env (requests w) _) as [st d|m resp]; [|reflexivity].
      now rewrite Hreq. }
  split; [|split; [exact Hfail|split]].
  - destruct (askGemini_returns E env cfg query context w) as (a & w' & k & H & _).
    eauto.
  - intros st d Hr Hmiss. apply Hfail. right. now rewrite Hr, Hmiss.
  - intros line w0 qe w2 Hexit Hne -> Hemb Hsearch Hgen.
    specialize (Hfail Hgen).
    destruct (askGemini_returns E env cfg (trim line) context w)
      as (a & w4 & k & Hask & _).
    rewrite Hask in Hfail. cbn [fst] in Hfail. injection Hfail as ->.
    assert (Hrun : on_line E env cfg line w0
                   = (Ok tt, logged (logged (logged w4 clear_line)
                                            (answer_log (VStr fallback))) EvPrompt)).
    { now rewrite (@on_line_turn E env cfg line w0 Hexit Hne), Hemb, Hsearch, Hask. }
    exists w4. split; [exact Hrun|].
    intros rest. cbn [chat]. unfold bind. now rewrite Hrun.
Qed.

End ChatClaims.

(** ** Startup *)

Section StartupFacts.

Variable E : Engine.
Variable env : Env.
Variable cfg : Config.

Lemma chunkText_500 (text : jsstring) : chunkText text 500 = Ok (startup_chunks text).
Proof. now destruct (@chunkText_windows text 500 eq_refl). Qed.

Lemma startChat_run w :
  exists w', startChat w = (Ok tt, w') /\ In EvListen (trace w').
Proof.
  unfold startChat, bind, emit. cbn [requests trace].
  eexists. split; [reflexivity|]. cbn [trace].
  apply in_or_app. right. now left.
Qed.

(** The run of [main], stage by stage. *)
Lemma main_run w0 :
  main E env cfg w0
  = let w1 := logged w0 testing_log in
    match http env (requests w0) (models_request cfg) with
    | Rejected m resp =>
        (Throw (connection_error (AxiosError m resp)), sent w1 (models_request cfg))
    | Resolved _ _ =>
        let w3 := logged (sent w1 (models_request cfg)) (EvReadFile (lit "text.txt")) in
        match readFile env (lit "text.txt") with
        | inr m => (Exit 1, logged w3 (fatal_log (FsError m)))
        | inl text =>
            let chunks := startup_chunks text in
            let w4 := logged w3 (processing_log E chunks) in
            match createCollection env cfg default_dim w4 with
            | (Ok _, w5) =>
                match embedWithGemini env cfg chunks w5 with
                | (Ok embeddings, w6) =>
                    match upsertToQdrant E env cfg (ids_of chunks) chunks embeddings w6 with
                    | (Ok _, w7) => startChat w7
                    | (Throw e, w7) => (Exit 1, logged w7 (fatal_log e))
                    | (Exit c, w7) => (Exit c, w7)
                    | (Hang, w7) => (Hang, w7)
                    end
                | (Throw e, w6) => (Exit 1, logged w6 (fatal_log e))
                | (Exit c, w6) => (Exit c, w6)
                | (Hang, w6) => (Hang, w6)
                end
            | (Throw e, w5) => (Exit 1, logged w5 (fatal_log e))
            | (Exit c, w5) => (Exit c, w5)
            | (Hang, w5) => (Hang, w5)
            end
        end
    end.
Proof.
  unfold main. unfold bind at 1. unfold try_catch at 1.
  unfold bind at 1. unfold emit at 1. unfold bind at 1. unfold axios at 1.
  cbn [requests trace]. cbv zeta.
  unfold sent, logged, testing_log, connection_error. cbn [requests trace error_message].
  destruct (http env (requests w0) (models_request cfg)) as [st d|m resp];
    [|reflexivity].
  unfold ret at 1. cbv beta iota.
  unfold try_catch, fs_readFile. unfold bind at 1. cbn [requests trace].
  destruct (readFile env (lit "text.txt")) as [text|m]; [|reflexivity].
  unfold bind at 1. unfold lift at 1. rewrite chunkText_500.
  cbv beta iota zeta. unfold bind at 1. unfold emit at 1. cbn [requests trace].
  unfold processing_log, fatal_log, process_exit, lift, emit. unfold bind at 1.
  match goal with
  | |- ?L = ?R =>
      match R with
      | context [createCollection env cfg ?d ?w] =>
          match L with
          | context [createCollection env cfg ?d' ?w'] =>
              change (createCollection env cfg d' w')
                with (createCollection env cfg d w);
              destruct (createCollection env cfg d w) as [[[]|e|c|] w5]
          end
      end
  end; try reflexivity.
  unfold bind at 1.
  match goal with
  | |- ?L = ?R =>
      match R with
      | context [embedWithGemini env cfg ?t ?w] =>
          match L with
          | context [embedWithGemini env cfg ?t' ?w'] =>
              change (embedWithGemini env cfg t' w')
                with (embedWithGemini env cfg t w);
              destruct (embedWithGemini env cfg t w) as [[embeddings|e|c|] w6]
          end
      end
  end; try reflexivity.
  unfold bind at 1.
  match goal with
  | |- ?L = ?R =>
      match R with
      | context [upsertToQdrant E env cfg ?i ?t ?v ?w] =>
          match L with
          | context [upsertToQdrant E env cfg ?i' ?t' ?v' ?w'] =>
              change (upsertToQdrant E env cfg i' t' v' w')
                with (upsertToQdrant E env cfg i t v w);
              destruct (upsertToQdrant E env cfg i t v w) as [[[]|e|c|] w7]
          end
      end
  end; reflexivity.
Qed.

End StartupFacts.

Lemma extends_batch w w' k :
  extends w w' k -> forallb batch (trace w) = true -> forallb batch (trace w') = true.
Proof.
  intros [_ (tr & -> & Hb)] Hw. now rewrite forallb_app, Hw, Hb.
Qed.

Lemma logged_batch w ev :
  batch ev = true -> forallb batch (trace w) = true ->
  forallb batch (trace (logged w ev)) = true.
Proof.
  intros Hev Hw. cbn [logged trace]. rewrite forallb_app, Hw. cbn. now rewrite Hev.
Qed.

Lemma batch_not_listening tr :
  forallb batch tr = true -> ~ In EvListen tr /\ ~ In EvPrompt tr.
Proof.
  intros Hb. rewrite forallb_forall in Hb.
  split; intros Hin; apply Hb in Hin; discriminate.
Qed.

Section StartupCases.

Variable E : Engine.
Variable env : Env.
Variable cfg : Config.

Lemma createCollection_cases dim w :
  (fst (createCollection env cfg dim w) = Ok tt
   /\ ((exists st d, http env (requests w) (create_request cfg dim) = Resolved st d)
       \/ (exists m d, http env (requests w) (create_request cfg dim)
                       = Rejected m (Some (409%Z, d)))))
  \/ (exists e, fst (createCollection env cfg dim w) = Throw e).
Proof.
  rewrite createCollection_run. cbv zeta.
  destruct (http env (requests w) (create_request cfg dim)) as [st d|m resp].
  - left. split; [reflexivity|]. left. eexists _, _. reflexivity.
  - destruct (status_is (AxiosError m resp) 409) eqn:Hst.
    + left. split; [reflexivity|]. right.
      unfold status_is in Hst. destruct resp as [[st d]|]; [|discriminate].
      cbn [error_status] in Hst. apply Z.eqb_eq in Hst as ->.
      eexists _, _. reflexivity.
    + right. eexists. reflexivity.
Qed.

Lemma upsertToQdrant_cases ids texts embeddings w :
  (fst (upsertToQdrant E env cfg ids texts embeddings w) = Ok tt
   /\ exists st d,
       http env (requests w) (upsert_request cfg (points_from 0 ids texts embeddings))
       = Resolved st d)
  \/ (exists e, fst (upsertToQdrant E env cfg ids texts embeddings w) = Throw e).
Proof.
  rewrite upsertToQdrant_run. cbv zeta.
  destruct (http env (requests w) _) as [st d|m resp] eqn:Hr.
  - left. split; [reflexivity|]. eexists _, _. reflexivity.
  - right. eexists. reflexivity.
Qed.

(** [main] from a fresh process: it throws (the connectivity check
    failed), or ends the process with code 1, in both cases with nothing
    but startup events behind it; or nothing failed and the listener is
    installed. *)
Lemma main_cases w0 :
  requests w0 = 0%nat ->
  forallb batch (trace w0) = true ->
  ((exists e, fst (main E env cfg w0) = Throw e) \/ fst (main E env cfg w0) = Exit 1)
  /\ forallb batch (trace (snd (main E env cfg w0))) = true
  \/ fst (main E env cfg w0) = Ok tt
     /\ In EvListen (trace (snd (main E env cfg w0)))
     /\ (exists st d, http env 0 (models_request cfg) = Resolved st d)
     /\ exists text embeddings,
         readFile env (lit "text.txt") = inl text
         /\ ((exists st d, http env 1 (create_request cfg default_dim) = Resolved st d)
             \/ (exists m d, http env 1 (create_request cfg default_dim)
                             = Rejected m (Some (409%Z, d))))
         /\ length embeddings = length (startup_chunks text)
         /\ (forall i chunk,
                nth_error (startup_chunks text) i = Some chunk ->
                embedding_in (http env (2 + i) (embed_request cfg chunk))
                = nth_error embeddings i)
         /\ (exists st d,
                http env (2 + length (startup_chunks text))
                     (upsert_request cfg (startup_points text embeddings))
                = Resolved st d).
Proof.
  intros Hreq Hbatch. rewrite main_run. cbv zeta. rewrite Hreq.
  destruct (http env 0 (models_request cfg)) as [st0 d0|m resp] eqn:Hconn.
  2:{ left. split; [left; eexists; reflexivity|]. cbn [snd sent logged trace].
      now rewrite !forallb_app, Hbatch. }
  destruct (readFile env (lit "text.txt")) as [text|m] eqn:Hfile.
  2:{ left. split; [now right|]. cbn [snd sent logged trace].
      now rewrite !forallb_app, Hbatch. }
  match goal with
  | |- context [createCollection env cfg ?d ?w] =>
      pose proof (createCollection_cases d w) as Hc;
      pose proof (createCollection_settled env cfg d w) as [_ Hext5];
      assert (Hb4 : forallb batch (trace w) = true)
        by (cbn [sent logged trace]; now rewrite !forallb_app, Hbatch);
      assert (Hr4 : requests w = 1%nat) by (cbn [sent logged requests]; lia);
      destruct (createCollection env cfg d w) as [[[]|e|c|] w5]
  end; cbn [fst snd] in Hc, Hext5;
    destruct Hc as [[Hc Hcreate]|[e' Hc]]; try discriminate.
  2:{ left. split; [now right|]. cbn [snd].
      apply logged_batch; [reflexivity|]. eapply extends_batch; eauto. }
  rewrite Hr4 in Hcreate.
  assert (Hb5 : forallb batch (trace w5) = true) by (eapply extends_batch; eauto).
  assert (Hr5 : requests w5 = 2%nat) by (destruct Hext5 as [-> _]; lia).
  destruct (embedWithGemini_cases env cfg (startup_chunks text) w5)
    as [(vs & w6 & Hrun & Hlen & Hnth & _ & Hext6)
       |(e & w6 & i & t & Hrun & _ & _ & Hext6)];
    rewrite Hrun.
  2:{ left. split; [now right|]. cbn [snd].
      apply logged_batch; [reflexivity|]. eapply extends_batch; eauto. }
  assert (Hb6 : forallb batch (trace w6) = true) by (eapply extends_batch; eauto).
  assert (Hr6 : requests w6 = (2 + length (startup_chunks text))%nat)
    by (destruct Hext6 as [-> _]; lia).
  match goal with
  | |- context [upsertToQdrant E env cfg ?i ?t ?v ?w] =>
      pose proof (upsertToQdrant_cases i t v w) as Hu;
      pose proof (upsertToQdrant_settled E env cfg i t v w) as [_ Hext7];
      destruct (upsertToQdrant E env cfg i t v w) as [[[]|e|c|] w7]
  end; cbn [fst snd] in Hu, Hext7;
    destruct Hu as [[Hu Hupsert]|[e' Hu]]; try discriminate.
  2:{ left. split; [now right|]. cbn [snd].
      apply logged_batch; [reflexivity|]. eapply extends_batch; eauto. }
  right. destruct (startChat_run w7) as (w8 & -> & Hlisten). cbn [fst snd].
  split; [reflexivity|]. split; [assumption|]. split; [eauto|].
  exists text, vs. split; [reflexivity|]. split; [assumption|].
  split; [assumption|]. split.
  - intros i chunk Hi. now rewrite (Hnth i chunk Hi), Hr5.
  - rewrite Hr6 in Hupsert. exact Hupsert.
Qed.

(** When nothing fails, [main] installs the listener and returns. *)
Lemma main_succeeds text embeddings :
  (exists st d, http env 0 (models_request cfg) = Resolved st d) ->
  readFile env (lit "text.txt") = inl text ->
  ((exists st d, http env 1 (create_request cfg default_dim) = Resolved st d)
   \/ (exists m d, http env 1 (create_request cfg default_dim)
                   = Rejected m (Some (409%Z, d)))) ->
  length embeddings = length (startup_chunks text) ->
  (forall i chunk,
      nth_error (startup_chunks text) i = Some chunk ->
      embedding_in (http env (2 + i) (embed_request cfg chunk))
      = nth_error embeddings i) ->
  (exists st d,
      http env (2 + length (startup_chunks text))
           (upsert_request cfg (startup_points text embeddings))
      = Resolved st d) ->
  fst (main E env cfg initial_world) = Ok tt
  /\ In EvListen (trace (snd (main E env cfg initial_world))).
Proof.
  intros (st0 & d0 & Hconn) Hfile Hcreate Hlen Hemb (st & d & Hupsert).
  rewrite main_run. cbv zeta. cbn [requests initial_world].
  rewrite Hconn, Hfile. rewrite createCollection_run. cbv zeta.
  cbn [requests logged sent initial_world].
  assert (Htail : forall w5, requests w5 = 2%nat ->
            fst (match embedWithGemini env cfg (startup_chunks text) w5 with
                 | (Ok embeddings0, w6) =>
                     match upsertToQdrant E env cfg (ids_of (startup_chunks text))
                                          (startup_chunks text) embeddings0 w6 with
                     | (Ok _, w7) => startChat w7
                     | (Throw e, w7) => (Exit 1, logged w7 (fatal_log e))
                     | (Exit c, w7) => (Exit c, w7)
                     | (Hang, w7) => (Hang, w7)
                     end
                 | (Throw e, w6) => (Exit 1, logged w6 (fatal_log e))
                 | (Exit c, w6) => (Exit c, w6)
                 | (Hang, w6) => (Hang, w6)
                 end) = Ok tt
            /\ In EvListen
                 (trace
                    (snd (match embedWithGemini env cfg (startup_chunks text) w5 with
                          | (Ok embeddings0, w6) =>
                              match upsertToQdrant E env cfg (ids_of (startup_chunks text))
                                                   (startup_chunks text) embeddings0 w6 with
                              | (Ok _, w7) => startChat w7
                              | (Throw e, w7) => (Exit 1, logged w7 (fatal_log e))
                              | (Exit c, w7) => (Exit c, w7)
                              | (Hang, w7) => (Hang, w7)
                              end
                          | (Throw e, w6) => (Exit 1, logged w6 (fatal_log e))
                          | (Exit c, w6) => (Exit c, w6)
                          | (Hang, w6) => (Hang, w6)
                          end)))).
  { intros w5 Hr5.
    destruct (embedWithGemini_cases env cfg (startup_chunks text) w5)
      as [(vs & w6 & Hrun & Hlen' & Hnth & _ & Hext6)
         |(e & w6 & i & t & Hrun & Hi & Hnone & _)];
      rewrite Hrun.
    - assert (vs = embeddings) as ->.
      { apply nth_error_ext. intros n.
        destruct (nth_error (startup_chunks text) n) as [chunk|] eqn:Hn.
        - now rewrite (Hnth n chunk Hn), Hr5, (Hemb n chunk Hn).
        - apply nth_error_None in Hn.
          transitivity (@None JsValue); [|symmetry]; apply nth_error_None; lia. }
      rewrite upsertToQdrant_run. cbv zeta.
      destruct Hext6 as [-> _]. rewrite Hr5.
      unfold startup_points in Hupsert. rewrite Hupsert.
      destruct (startChat_run (logged (sent w6 (upsert_request cfg
                  (points_from 0 (ids_of (startup_chunks text))
                               (startup_chunks text) embeddings)))
                  (EvLog [VStr (0x2705%N :: lit " "
                                  ++ number_to_string E
                                       (float_of_nat
                                          (length (points_from 0
                                                     (ids_of (startup_chunks text))
                                                     (startup_chunks text) embeddings)))
                                  ++ lit " embeddings uploaded to Qdrant.")])))
        as (w8 & -> & Hlisten).
      split; [reflexivity|exact Hlisten].
    - exfalso. rewrite Hr5, (Hemb i t Hi) in Hnone.
      apply nth_error_None in Hnone.
      assert (i < length (startup_chunks text))%nat
        by (apply nth_error_Some; congruence).
      lia. }
  destruct Hcreate as [(st1 & d1 & Hc)|(m & d1 & Hc)]; rewrite Hc.
  - apply Htail. reflexivity.
  - cbn [status_is error_status]. rewrite Z.eqb_refl. apply Htail. reflexivity.
Qed.

Lemma startup_succeeds :
  startup_succeeded env cfg ->
  fst (startup E env cfg) = Ok tt
  /\ In EvListen (trace (snd (startup E env cfg))).
Proof.
  intros (H1 & H2 & H3 & H4 & Hconn & text & embeddings
          & Hfile & Hcreate & Hlen & Hemb & Hupsert).
  unfold startup, node, module_body. rewrite H1, H2, H3, H4. cbn [orb].
  destruct (main_succeeds embeddings Hconn Hfile Hcreate Hlen Hemb Hupsert)
    as [Hok Hlisten].
  destruct (main E env cfg initial_world) as [o w]. cbn [fst snd] in *.
  subst o. now split.
Qed.

(** The process after startup: it has ended with code 1 before the
    interactive loop was entered, or nothing failed and the loop is
    entered. *)
Lemma startup_cases :
  fst (startup E env cfg) = Exit 1
  /\ forallb batch (trace (snd (startup E env cfg))) = true
  \/ fst (startup E env cfg) = Ok tt
     /\ In EvListen (trace (snd (startup E env cfg)))
     /\ startup_succeeded env cfg.
Proof.
  unfold startup, node, module_body.
  destruct (unset (GEMINI_API_KEY cfg) || unset (QDRANT_API_KEY cfg)
            || unset (QDRANT_HOST cfg) || unset (COLLECTION_NAME cfg)) eqn:Hcfg.
  - left. split; reflexivity.
  - apply orb_false_elim in Hcfg as [Hcfg H4].
    apply orb_false_elim in Hcfg as [Hcfg H3].
    apply orb_false_elim in Hcfg as [H1 H2].
    destruct (main_cases initial_world eq_refl eq_refl)
      as [[[[e He]|He] Hb]|(Hok & Hlisten & Hconn & Hrest)];
      destruct (main E env cfg initial_world) as [o w]; cbn [fst snd] in *; subst o.
    + left. split; [reflexivity|]. cbn [snd trace].
      now rewrite forallb_app, Hb.
    + left. split; [reflexivity|assumption].
    + right. split; [reflexivity|]. split; [assumption|].
      unfold startup_succeeded. auto 10.
Qed.

End StartupCases.

Section StartupClaims.

Variable E : Engine.
Variable env : Env.
Variable cfg : Config.

Lemma not_succeeded_fatal :
  ~ startup_succeeded env cfg -> fatal (startup E env cfg).
Proof.
  intros Hnot.
  destruct (startup_cases E env cfg) as [[Hexit Hb]|(_ & _ & Hsucc)];
    [|contradiction].
  split; [assumption|]. now apply batch_not_listening.
Qed.

(** C8.  Every failure of the startup phase is fatal.  A run of the
    startup either succeeds at every stage, and then enters the loop, or it
    does not, and then the process ends with code 1 before the listener is
    installed or the prompt shown.  In particular each of these failures is
    fatal: a required variable that is missing or empty, a rejected
    connectivity check, a document that cannot be read, a creation of the
    collection rejected with anything but status 409, a chunk whose
    embedding call carries no embedding, and a rejection of the upsert of
    the batch that [main] sends.  The lines typed after a fatal failure are
    never handled. *)
Theorem startup_failure_is_fatal :
  (~ startup_succeeded env cfg -> fatal (startup E env cfg))
  /\ (startup_succeeded env cfg ->
      fst (startup E env cfg) = Ok tt
      /\ In EvListen (trace (snd (startup E env cfg))))
  /\ (unset (GEMINI_API_KEY cfg) || unset (QDRANT_API_KEY cfg)
      || unset (QDRANT_HOST cfg) || unset (COLLECTION_NAME cfg) = true ->
      fatal (startup E env cfg))
  /\ ((exists m resp, http env 0 (models_request cfg) = Rejected m resp) ->
      fatal (startup E env cfg))
  /\ ((exists m, readFile env (lit "text.txt") = inr m) ->
      fatal (startup E env cfg))
  /\ ((exists m resp,
          http env 1 (create_request cfg default_dim) = Rejected m resp
          /\ error_status (AxiosError m resp) <> Some 409%Z) ->
      fatal (startup E env cfg))
  /\ ((exists text i chunk,
          readFile env (lit "text.txt") = inl text
          /\ nth_error (startup_chunks text) i = Some chunk
          /\ embedding_in (http env (2 + i) (embed_request cfg chunk)) = None) ->
      fatal (startup E env cfg))
  /\ ((exists text embeddings m resp,
          readFile env (lit "text.txt") = inl text
          /\ length embeddings = length (startup_chunks text)
          /\ (forall i chunk,
                 nth_error (startup_chunks text) i = Some chunk ->
                 embedding_in (http env (2 + i) (embed_request cfg chunk))
                 = nth_error embeddings i)
          /\ http env (2 + length (startup_chunks text))
                  (upsert_request cfg (startup_points text embeddings))
             = Rejected m resp) ->
      fatal (startup E env cfg))
  /\ (fatal (startup E env cfg) ->
      forall lines, session E env cfg lines = startup E env cfg).
Proof.
  split; [exact not_succeeded_fatal|].
  split; [apply startup_succeeds|].
  split; [|split; [|split; [|split; [|split; [|split]]]]].
  - intros Hcfg. apply not_succeeded_fatal.
    intros (H1 & H2 & H3 & H4 & _). now rewrite H1, H2, H3, H4 in Hcfg.
  - intros (m & resp & Hr). apply not_succeeded_fatal.
    intros (_ & _ & _ & _ & (st & d & Hok) & _). congruence.
  - intros (m & Hr). apply not_succeeded_fatal.
    intros (_ & _ & _ & _ & _ & text & embeddings & Hok & _). congruence.
  - intros (m & resp & Hr & Hst). apply not_succeeded_fatal.
    intros (_ & _ & _ & _ & _ & text & embeddings & _
            & [(st & d & Hok)|(m' & d & Hok)] & _).
    + congruence.
    + rewrite Hok in Hr. injection Hr as <- <-. now apply Hst.
  - intros (text & i & chunk & Hfile & Hi & Hnone). apply not_succeeded_fatal.
    intros (_ & _ & _ & _ & _ & text' & embeddings & Hfile' & _ & Hlen & Hemb & _).
    rewrite Hfile in Hfile'. injection Hfile' as <-.
    rewrite (Hemb i chunk Hi) in Hnone. apply nth_error_None in Hnone.
    assert (i < length (startup_chunks text))%nat
      by (apply nth_error_Some; congruence).
    lia.
  - intros (text & embeddings & m & resp & Hfile & Hlen & Hemb & Hr).
    apply not_succeeded_fatal.
    intros (_ & _ & _ & _ & _ & text' & embeddings' & Hfile' & _ & Hlen' & Hemb'
            & st & d & Hok).
    rewrite Hfile in Hfile'. injection Hfile' as <-.
    assert (embeddings' = embeddings) as ->.
    { apply nth_error_ext. intros n.
      destruct (nth_error (startup_chunks text) n) as [chunk|] eqn:Hn.
      - now rewrite <- (Hemb n chunk Hn), <- (Hemb' n chunk Hn).
      - apply nth_error_None in Hn.
        transitivity (@None JsValue); [|symmetry]; apply nth_error_None; lia. }
    congruence.
  - intros [Hexit _] lines. unfold session, bind.
    fold (startup E env cfg).
    destruct (startup E env cfg) as [o w]. cbn [fst] in Hexit. now subst o.
Qed.

End StartupClaims.

(** A run in which nothing fails enters the loop, and answers a question. *)
Example startup_then_chat :
  fst (startup ascii_engine (always (Resolved 200 sample_body)) test_config) = Ok tt
  /\ In EvListen
        (trace (snd (startup ascii_engine (always (Resolved 200 sample_body)) test_config)))
  /\ fst (session ascii_engine (always (Resolved 200 sample_body)) test_config
                  [lit "what is it?"; lit "  "; lit " Exit "; lit "more"])
     = Exit 0.
Proof.
  split; [vm_compute; reflexivity|]. split; [|vm_compute; reflexivity].
  vm_compute. auto 20.
Qed.

(** Runs that fail at each stage of the startup: an incomplete
    configuration, a rejected connectivity check, a missing document, a
    collection creation answered with status 500, an embedding response
    without embedding, a rejected upsert, and a provider that rejects the
    batch sent but would accept an empty one. *)
Lemma startup_failure_is_fatal_witness :
  fatal (startup ascii_engine (always (Resolved 200 sample_body))
                 {| GEMINI_API_KEY := Some (lit "g-key");
                    QDRANT_API_KEY := None;
                    QDRANT_HOST := Some (lit "https://qdrant.test");
                    COLLECTION_NAME := Some (lit "") |})
  /\ fatal (startup ascii_engine (always (Rejected (lit "Network Error") None))
                    test_config)
  /\ fatal (startup ascii_engine no_document test_config)
  /\ fatal (startup ascii_engine
                    (except_request 1
                       (Rejected (lit "Request failed with status code 500")
                                 (Some (500%Z, VObj []))))
                    test_config)
  /\ fatal (startup ascii_engine (except_request 2 (Resolved 200 (VObj []))) test_config)
  /\ fatal (startup ascii_engine
                    (except_request 3 (Rejected (lit "timeout of 30000ms exceeded") None))
                    test_config)
  /\ fatal (startup ascii_engine rejects_batches test_config).
Proof.
  pose proof (fun env cfg => proj2 (proj2 (startup_failure_is_fatal ascii_engine env cfg)))
    as H.
  split; [|split; [|split; [|split; [|split; [|split]]]]].
  - apply (proj1 (H _ _)). reflexivity.
  - apply (proj1 (proj2 (H _ _))).
    exists (lit "Network Error"), None. reflexivity.
  - apply (proj1 (proj2 (proj2 (H _ _)))).
    eexists. reflexivity.
  - apply (proj1 (proj2 (proj2 (proj2 (H _ _))))).
    eexists _, _. split; [reflexivity|discriminate].
  - apply (proj1 (proj2 (proj2 (proj2 (proj2 (H _ _)))))).
    exists (lit "ABCDEFGHIJ"), 0%nat, (lit "ABCDEFGHIJ").
    repeat split; reflexivity.
  - apply (proj1 (proj2 (proj2 (proj2 (proj2 (proj2 (H _ _))))))).
    exists (lit "ABCDEFGHIJ"), [VArr [VNum 0.5%float]],
           (lit "timeout of 30000ms exceeded"), None.
    split; [reflexivity|]. split; [reflexivity|]. split; [|reflexivity].
    intros [|i] chunk Hi; [reflexivity|].
    vm_compute in Hi. destruct i; discriminate.
  - apply (proj1 (proj2 (proj2 (proj2 (proj2 (proj2 (H _ _))))))).
    exists (lit "ABCDEFGHIJ"), [VArr [VNum 0.5%float]],
           (lit "Request failed with status code 400"),
           (Some (400%Z, VObj [(lit "status", VStr (lit "error"))])).
    split; [reflexivity|]. split; [reflexivity|]. split; [|reflexivity].
    intros [|i] chunk Hi; [reflexivity|].
    vm_compute in Hi. destruct i; discriminate.
Defined.

(** The same runs, evaluated. *)
Example startup_exit_codes :
  map (fun env => fst (startup ascii_engine env test_config))
      [always (Rejected (lit "Network Error") None);
       no_document;
       except_request 1 (Rejected (lit "Request failed with status code 500")
                                  (Some (500%Z, VObj [])));
       except_request 1 (Rejected (lit "Request failed with status code 409")
                                  (Some (409%Z, VObj [])));
       except_request 2 (Resolved 200 (VObj []));
       except_request 3 (Rejected (lit "timeout of 30000ms exceeded") None)]
  = [Exit 1; Exit 1; Exit 1; Ok tt; Exit 1; Exit 1].
Proof. vm_compute. reflexivity. Qed.

(** A turn in which the network is down: the error is printed and the
    prompt comes back. *)
Lemma turn_errors_caught_witness :
  let E := ascii_engine in
  let env := always (Rejected (lit "Network Error") None) in
  let cfg := test_config in
  let line := lit " hello " in
  let w := initial_world in
  exists w',
    on_line E env cfg line w = (Ok tt, w')
    /\ (exists tr, trace w' = tr ++ [EvPrompt])
    /\ (forall rest, chat E env cfg (line :: rest) w = chat E env cfg rest w')
    /\ (forall e w2,
           trim line <> [] ->
           embedWithGemini env cfg [trim line] (logged w thinking) = (Throw e, w2) ->
           w' = logged (logged w2 (turn_error_log e)) EvPrompt)
    /\ (forall queryEmbedding w2 e w3,
           trim line <> [] ->
           embedWithGemini env cfg [trim line] (logged w thinking)
           = (Ok queryEmbedding, w2) ->
           searchQdrant E env cfg (nth 0 queryEmbedding VUndefined) default_topK w2
           = (Throw e, w3) ->
           w' = logged (logged w3 (turn_error_log e)) EvPrompt).
Proof.
  apply (@turn_errors_caught ascii_engine
           (always (Rejected (lit "Network Error") None)) test_config
           (lit " hello ") initial_world).
  vm_compute. discriminate.
Defined.

Example turn_network_down :
  on_line ascii_engine (always (Rejected (lit "Network Error") None)) test_config
          (lit " hello ") initial_world
  = (Ok tt,
     {| requests := 1;
        trace := [thinking;
                  EvHttp (embed_request test_config (lit "hello"));
                  EvError [VStr (lit "Error in embedWithGemini:");
                           VStr (lit "Network Error")];
                  turn_error_log (AxiosError (lit "Network Error") None);
                  EvPrompt] |}).
Proof. vm_compute. reflexivity. Qed.

(** Lines that trim to nothing, and spellings of the exit word. *)
Example blank_and_exit_lines :
  map trim [lit ""; lit "   "; [9; 32; 13; 10; 160; 0x3000]%N] = [[]; []; []]
  /\ map (fun l => caseless_eqb (trim l) (lit "exit"))
         [lit "exit"; lit "EXIT"; lit "Exit"; lit "  eXiT "; lit "exit now"; lit "quit"]
     = [true; true; true; true; false; false].
Proof. split; vm_compute; reflexivity. Qed.

Example exit_line :
  on_line ascii_engine (always (Rejected (lit "Network Error") None)) test_config
          (lit " EXIT ") initial_world
  = (Exit 0, {| requests := 0; trace := [EvClose; goodbye] |}).
Proof. vm_compute. reflexivity. Qed.

(** A generation failure in a turn whose retrieval worked: the fallback is
    the printed answer. *)
Example turn_generation_down :
  let env :=
    {| http := fun n _ =>
                 match n with
                 | 2%nat => Rejected (lit "timeout of 30000ms exceeded") None
                 | _ => Resolved 200 sample_body
                 end;
       readFile := fun _ => inr (lit "ENOENT") |} in
  fst (on_line ascii_engine env test_config (lit "why?") initial_world) = Ok tt
  /\ In (answer_log (VStr fallback))
        (trace (snd (on_line ascii_engine env test_config (lit "why?") initial_world))).
Proof. split; vm_compute; [reflexivity|auto 20]. Qed.

(** * Further properties of the code *)

(** ** Segmenter: where each chunk comes from *)

Section SegmenterWindows.

Context {A : Type}.
Implicit Types (l : list A) (n fuel k : nat).

Lemma windows_nil fuel n : windows fuel n (@nil A) = [].
Proof. destruct fuel; reflexivity. Qed.

Lemma windows_length n :
  (0 < n)%nat ->
  forall fuel l, (length l < fuel)%nat ->
    length (windows fuel n l) = ((length l + n - 1) / n)%nat.
Proof.
  intros Hn. induction fuel as [|fuel IH]; intros l Hl; [lia|].
  destruct l as [|a l'].
  - cbn [windows length]. symmetry. apply Nat.div_small. lia.
  - simpl windows. remember (a :: l') as l eqn:El.
    assert (Hpos : (0 < length l)%nat) by (subst l; cbn [length]; lia).
    cbn [length]. rewrite IH by (rewrite length_skipn; lia).
    rewrite length_skipn.
    destruct (Nat.le_gt_cases (length l) n) as [Hle|Hgt].
    + replace (length l - n)%nat with 0%nat by lia.
      rewrite (Nat.div_small (0 + n - 1) n) by lia.
      apply Nat.div_unique with (r := (length l - 1)%nat); lia.
    + replace (length l + n - 1)%nat with ((length l - n + n - 1) + 1 * n)%nat by lia.
      rewrite Nat.div_add by lia. lia.
Qed.

Lemma windows_index_bound n :
  (0 < n)%nat ->
  forall fuel l k, (k < length (windows fuel n l))%nat -> (k * n < length l)%nat.
Proof.
  intros Hn. induction fuel as [|fuel IH]; intros l k Hk; [cbn in Hk; lia|].
  destruct l as [|a l']; [cbn in Hk; lia|].
  simpl windows in Hk. remember (a :: l') as l eqn:El.
  assert (Hpos : (0 < length l)%nat) by (subst l; cbn [length]; lia).
  destruct k as [|k]; [lia|].
  cbn [length] in Hk. apply PeanoNat.lt_S_n in Hk.
  apply IH in Hk. rewrite length_skipn in Hk. lia.
Qed.

Lemma windows_nth n :
  forall fuel l k, (k < length (windows fuel n l))%nat ->
    nth k (windows fuel n l) [] = firstn n (skipn (k * n) l).
Proof.
  induction fuel as [|fuel IH]; intros l k Hk; [cbn in Hk; lia|].
  destruct l as [|a l']; [cbn in Hk; lia|].
  simpl windows in *. remember (a :: l') as l eqn:El.
  destruct k as [|k]; [reflexivity|].
  cbn [length] in Hk. apply PeanoNat.lt_S_n in Hk.
  cbn [nth]. rewrite (IH _ _ Hk), skipn_skipn. do 2 f_equal. lia.
Qed.

Lemma windows_no_empty n :
  (0 < n)%nat ->
  forall fuel l c, In c (windows fuel n l) -> c <> [].
Proof.
  intros Hn. induction fuel as [|fuel IH]; intros l c Hc; [contradiction|].
  destruct l as [|a l']; [contradiction|].
  simpl windows in Hc. destruct Hc as [<-|Hc]; [|eauto].
  destruct n; [lia|discriminate].
Qed.

End SegmenterWindows.

(** X1.  For a positive size the number of chunks is the length of the text
    divided by the size, rounded up; chunk [k] is
    [text.slice(k * size, k * size + size)]; and no chunk is empty. *)
Theorem chunkText_chunks (T : jsstring) (size : Z) :
  (0 < size)%Z ->
  exists chunks,
    chunkText T size = Ok chunks
    /\ Z.of_nat (length chunks) = ((Z.of_nat (length T) + size - 1) / size)%Z
    /\ (forall k, (k < length chunks)%nat ->
          nth k chunks [] = slice T (Z.of_nat k * size) (Z.of_nat k * size + size))
    /\ (forall c, In c chunks -> c <> []).
Proof.
  intros Hs.
  assert (Hn : (0 < Z.to_nat size)%nat) by lia.
  destruct (chunkText_windows T Hs) as [Hrun _].
  exists (windows (S (length T)) (Z.to_nat size) T).
  split; [exact Hrun|]. split; [|split].
  - rewrite windows_length by lia.
    rewrite Nat2Z.inj_div. f_equal; lia.
  - intros k Hk.
    pose proof (@windows_index_bound _ _ Hn _ _ _ Hk) as Hlt.
    rewrite windows_nth by assumption.
    rewrite slice_window by nia.
    do 2 f_equal. lia.
  - intros c. apply windows_no_empty. exact Hn.
Qed.

Lemma chunkText_chunks_witness :
  exists chunks,
    chunkText (lit "ABCDEFGHIJ") 4 = Ok chunks
    /\ Z.of_nat (length chunks)
       = ((Z.of_nat (length (lit "ABCDEFGHIJ")) + 4 - 1) / 4)%Z
    /\ (forall k, (k < length chunks)%nat ->
          nth k chunks []
          = slice (lit "ABCDEFGHIJ") (Z.of_nat k * 4) (Z.of_nat k * 4 + 4))
    /\ (forall c, In c chunks -> c <> []).
Proof. apply (@chunkText_chunks (lit "ABCDEFGHIJ") 4). reflexivity. Defined.

(** X2.  A size that is not positive on a non-empty text.  The loop
    condition never fails, so the call returns nothing: the array grows with
    every turn and, whatever the capacity of the engine's arrays, the [push]
    that exceeds it throws [RangeError: Invalid array length], which is how
    the call ends. *)
Theorem chunkText_overflows (T : jsstring) (size : Z) :
  (size <= 0)%Z -> T <> [] ->
  chunkText T size = Throw invalid_array_length
  /\ (forall fuel chunks, chunk_loop fuel T size 0 chunks = None)
  /\ (forall capacity fuel,
         (capacity < fuel)%nat ->
         chunk_loop_capped capacity fuel T size 0 [] = Some (Throw invalid_array_length))
  /\ (forall capacity fuel chunks,
         chunk_loop_capped capacity fuel T size 0 [] <> Some (Ok chunks)).
Proof.
  intros Hs Hne.
  assert (H : forall fuel chunks, chunk_loop fuel T size 0 chunks = None)
    by (intros fuel chunks; apply chunk_loop_diverges; trivial; lia).
  split; [unfold chunkText; now rewrite H|]. split; [exact H|]. split.
  - intros capacity fuel Hfuel.
    apply chunk_loop_capped_overflow; trivial; cbn [length]; lia.
  - intros capacity fuel chunks.
    apply chunk_loop_capped_no_return; trivial; lia.
Qed.

Lemma chunkText_overflows_witness :
  chunkText (lit "ab") (-3) = Throw invalid_array_length
  /\ (forall fuel chunks, chunk_loop fuel (lit "ab") (-3) 0 chunks = None)
  /\ (forall capacity fuel,
         (capacity < fuel)%nat ->
         chunk_loop_capped capacity fuel (lit "ab") (-3) 0 []
         = Some (Throw invalid_array_length))
  /\ (forall capacity fuel chunks,
         chunk_loop_capped capacity fuel (lit "ab") (-3) 0 [] <> Some (Ok chunks)).
Proof.
  apply (@chunkText_overflows (lit "ab") (-3)%Z); [discriminate|discriminate].
Defined.

(** With a positive size the capacity plays no part as long as the chunks
    fit: the loop on the engine's array returns what [chunkText] returns. *)
Lemma chunkText_capped_agrees (T : jsstring) (size : Z) chunks capacity fuel :
  chunkText T size = Ok chunks ->
  (length chunks <= capacity)%nat ->
  (length T < fuel)%nat ->
  (0 < size)%Z ->
  chunk_loop_capped capacity fuel T size 0 [] = Some (Ok chunks).
Proof.
  intros Hrun Hfit Hfuel Hs.
  destruct (chunkText_windows T Hs) as [Hrun' Hloop].
  rewrite Hrun in Hrun'. injection Hrun' as ->.
  apply chunk_loop_capped_agrees; [now apply Hloop|assumption].
Qed.

(** The text "ab" with the size -3, on an array of 1000 elements: the
    1001st [push] throws, and no fewer turns end the call. *)
Example chunkText_overflow_1000 :
  chunk_loop_capped 1000 1001 (lit "ab") (-3) 0 [] = Some (Throw invalid_array_length)
  /\ chunk_loop_capped 1000 1000 (lit "ab") (-3) 0 [] = None.
Proof. split; vm_compute; reflexivity. Qed.

(** ** Embedding client: the first failure stops the batch *)

Section EmbeddingFailFast.

Variable env : Env.
Variable cfg : Config.

Lemma embed_loop_first_failure texts :
  forall acc w i text,
    nth_error texts i = Some text ->
    (forall j t, (j < i)%nat -> nth_error texts j = Some t ->
       embedding_in (http env (requests w + j) (embed_request cfg t)) <> None) ->
    embedding_in (http env (requests w + i) (embed_request cfg text)) = None ->
    embed_loop env cfg texts acc w
    = (Throw (embed_failure (http env (requests w + i) (embed_request cfg text))),
       {| requests := requests w + S i;
          trace := trace w
                     ++ map (fun t => EvHttp (embed_request cfg t)) (firstn (S i) texts) |}).
Proof.
  induction texts as [|t0 rest IH]; intros acc w i text Hi Hbefore Hnone.
  - destruct i; discriminate.
  - rewrite embed_loop_cons. cbv zeta. destruct i as [|i].
    + cbn in Hi. injection Hi as ->. rewrite Nat.add_0_r in Hnone |- *.
      unfold sent. rewrite Nat.add_1_r. cbn [firstn map].
      destruct (http env (requests w) (embed_request cfg text)) as [st d|m resp];
        [|reflexivity].
      rewrite Hnone. cbn [embed_failure].
      destruct d; reflexivity.
    + cbn in Hi.
      pose proof (Hbefore 0%nat t0 (Nat.lt_0_succ i) eq_refl) as Hhead.
      rewrite Nat.add_0_r in Hhead.
      destruct (http env (requests w) (embed_request cfg t0)) as [st d|m resp];
        [|now cbn in Hhead].
      destruct (embedding_in (Resolved st d)) as [v|]; [|congruence].
      rewrite (IH (acc ++ [v]) (sent w (embed_request cfg t0)) i text Hi).
      * cbn [sent requests trace firstn map].
        replace (S (requests w) + i)%nat with (requests w + S i)%nat by lia.
        replace (S (requests w) + S i)%nat with (requests w + S (S i))%nat by lia.
        now rewrite <- app_assoc.
      * intros j t Hj Ht. cbn [sent requests].
        replace (S (requests w) + j)%nat with (requests w + S j)%nat by lia.
        apply (Hbefore (S j) t); [lia|exact Ht].
      * cbn [sent requests].
        now replace (S (requests w) + i)%nat with (requests w + S i)%nat by lia.
Qed.

(** X3.  When call [i] is the first that carries no embedding,
    [embedWithGemini] issues the requests of texts [0] to [i], in order, and
    none for the texts after; it logs the error and throws it: the
    rejection unchanged when the call was rejected, the [TypeError] when the
    body is [null] or [undefined], its "Invalid response" error
    otherwise. *)
Theorem embedWithGemini_fail_fast texts w i text :
  nth_error texts i = Some text ->
  (forall j t, (j < i)%nat -> nth_error texts j = Some t ->
     embedding_in (http env (requests w + j) (embed_request cfg t)) <> None) ->
  embedding_in (http env (requests w + i) (embed_request cfg text)) = None ->
  let e := embed_failure (http env (requests w + i) (embed_request cfg text)) in
  embedWithGemini env cfg texts w
  = (Throw e,
     {| requests := requests w + S i;
        trace := trace w
                   ++ map (fun t => EvHttp (embed_request cfg t)) (firstn (S i) texts)
                   ++ [embed_error_log e] |}).
Proof.
  intros Hi Hbefore Hnone e. unfold embedWithGemini, try_catch.
  rewrite (embed_loop_first_failure texts [] w Hi Hbefore Hnone).
  unfold bind, emit, throw, lift. cbn [requests trace]. fold e.
  now rewrite <- app_assoc.
Qed.

End EmbeddingFailFast.

Lemma embedWithGemini_fail_fast_witness :
  let env := except_request 1 (Resolved 200 (VObj [])) in
  let texts := [lit "a"; lit "b"; lit "c"] in
  let e := embed_failure (http env (0 + 1) (embed_request test_config (lit "b"))) in
  embedWithGemini env test_config texts initial_world
  = (Throw e,
     {| requests := 0 + 2;
        trace := []
                   ++ map (fun t => EvHttp (embed_request test_config t)) (firstn 2 texts)
                   ++ [embed_error_log e] |}).
Proof.
  apply (@embedWithGemini_fail_fast (except_request 1 (Resolved 200 (VObj [])))
           test_config [lit "a"; lit "b"; lit "c"] initial_world 1%nat (lit "b")).
  - reflexivity.
  - intros j t Hj Ht. assert (j = 0%nat) as -> by lia. vm_compute. discriminate.
  - reflexivity.
Defined.

(** ** Vector store client: the bulk upsert *)

Lemma points_from_length i ids texts embeddings :
  length (points_from i ids texts embeddings) = length ids.
Proof.
  revert i. induction ids as [|id rest IH]; intros i; cbn [points_from length]; auto.
Qed.

Lemma points_from_nth ids texts embeddings :
  forall i k id,
    nth_error ids k = Some id ->
    nth_error (points_from i ids texts embeddings) k
    = Some (point_at (i + k) id texts embeddings).
Proof.
  induction ids as [|id0 rest IH]; intros i k id Hk.
  - destruct k; discriminate.
  - destruct k as [|k]; cbn in Hk |- *.
    + injection Hk as ->. now rewrite Nat.add_0_r.
    + rewrite (IH (S i) k id Hk). do 2 f_equal. lia.
Qed.

Section UpsertClaims.

Variable E : Engine.
Variable env : Env.
Variable cfg : Config.

(** X4.  [upsertToQdrant] sends one request, whatever the number of points.
    Its body holds one point per id, in the order of the ids: the point at
    position [k] pairs the [k]-th id with [embeddings[k]] and [texts[k]],
    which are [undefined] when those arrays are shorter.  A rejection is
    logged and thrown again unchanged; a resolved call returns. *)
Theorem upsertToQdrant_bulk ids texts embeddings w :
  let points := points_from 0 ids texts embeddings in
  let run := upsertToQdrant E env cfg ids texts embeddings w in
  length points = length ids
  /\ (forall k id, nth_error ids k = Some id ->
        nth_error points k = Some (point_at k id texts embeddings))
  /\ requests (snd run) = S (requests w)
  /\ (exists ev, trace (snd run) = trace w ++ [EvHttp (upsert_request cfg points); ev]
                 /\ is_http ev = false)
  /\ (forall m resp,
         http env (requests w) (upsert_request cfg points) = Rejected m resp ->
         fst run = Throw (AxiosError m resp)
         /\ In (EvError [VStr (lit "Error upserting to Qdrant:"); VStr m])
               (trace (snd run)))
  /\ (forall st d,
         http env (requests w) (upsert_request cfg points) = Resolved st d ->
         fst run = Ok tt).
Proof.
  cbv zeta. rewrite upsertToQdrant_run. cbv zeta.
  split; [apply points_from_length|].
  split; [intros k id Hk; apply (points_from_nth ids texts embeddings 0 k Hk)|].
  destruct (http env (requests w)
              (upsert_request cfg (points_from 0 ids texts embeddings)))
    as [st d|m resp]; cbn [fst snd logged sent requests trace].
  - split; [reflexivity|]. split.
    + eexists. rewrite <- app_assoc. split; reflexivity.
    + split; [discriminate|reflexivity].
  - split; [reflexivity|]. split.
    + eexists. rewrite <- app_assoc. split; reflexivity.
    + split; [|discriminate].
      intros m' resp' H. injection H as <- <-. split; [reflexivity|].
      apply in_or_app. right. now left.
Qed.

End UpsertClaims.

(** ** Vector store client: malformed search results *)

Section SearchEdges.

Variable E : Engine.
Variable env : Env.
Variable cfg : Config.

Lemma filter_items_ok_inv items kept :
  filter_items items = Ok kept ->
  Forall (fun item => nullish item = false) items.
Proof.
  revert kept. induction items as [|item rest IH]; intros kept H; [constructor|].
  cbn [filter_items] in H. unfold payload_text_opt in H.
  destruct (nullish item) eqn:Hn.
  - destruct (get_member_throws item P_payload Hn) as [m Hm].
    rewrite Hm in H. discriminate.
  - rewrite (get_member_nullish _ _ Hn) in H. cbn [obind] in H.
    destruct (filter_items rest) as [kept'| | |] eqn:Hrest; try discriminate.
    constructor; eauto.
Qed.

(** X5.  Errors of [searchQdrant] beyond its own protocol error.  A
    rejected request is thrown unchanged and nothing is logged.  A resolved
    response whose [result] is truthy but not an array throws the
    [TypeError] of calling [filter] on it; one whose [result] is an array
    holding [null] (or [undefined]) throws a [TypeError] too.  Each time
    exactly one request has been issued. *)
Theorem searchQdrant_malformed queryVector topK w :
  let r := search_request cfg queryVector topK in
  let run := searchQdrant E env cfg queryVector topK w in
  requests (snd run) = S (requests w)
  /\ (forall m resp,
         http env (requests w) r = Rejected m resp ->
         run = (Throw (AxiosError m resp), sent w r))
  /\ (forall st d,
         http env (requests w) r = Resolved st d ->
         truthy (opt_member d P_result) = true ->
         (forall items, opt_member d P_result <> VArr items) ->
         run = (Throw (TypeError (lit "res.data.result.filter is not a function")),
                sent w r))
  /\ (forall st d items,
         http env (requests w) r = Resolved st d ->
         opt_member d P_result = VArr items ->
         Exists (fun item => nullish item = true) items ->
         exists m, run = (Throw (TypeError m), sent w r)).
Proof.
  cbv zeta. rewrite searchQdrant_run. cbv zeta.
  split; [|split; [|split]].
  - destruct (http env (requests w) _) as [st d|m resp];
      [destruct (truthy (opt_member d P_result))|]; reflexivity.
  - intros m resp ->. reflexivity.
  - intros st d -> Ht Hnot. rewrite Ht. f_equal.
    destruct (truthy_opt_member _ _ Ht) as [Hd Heq].
    unfold context_of. rewrite (get_member_nullish _ _ Hd), <- Heq. cbn [obind].
    destruct (opt_member d P_result) as [| | | | |items| |] eqn:Hres;
      try reflexivity.
    now destruct (Hnot items).
  - intros st d items -> Hres Hex. rewrite Hres. cbn [truthy].
    assert (Ht : truthy (opt_member d P_result) = true) by now rewrite Hres.
    destruct (truthy_opt_member _ _ Ht) as [Hd Heq].
    pose proof (context_of_type_errors E d) as Hty.
    destruct (context_of E d) as [ctx|[]| |] eqn:Hctx; try contradiction.
    + exfalso. unfold context_of in Hctx.
      rewrite (get_member_nullish _ _ Hd), <- Heq, Hres in Hctx.
      cbn [obind filter_receiver] in Hctx.
      destruct (filter_items items) as [kept| | |] eqn:Hf; try discriminate.
      apply filter_items_ok_inv in Hf.
      apply Exists_exists in Hex as (item & Hin & Hnull).
      rewrite Forall_forall in Hf. specialize (Hf item Hin). congruence.
    + eexists. reflexivity.
Qed.


End SearchEdges.


(** ** Answer generator client: requests and the answer *)

Section GeneratorClaims.

Variable E : Engine.
Variable env : Env.
Variable cfg : Config.

(** X7.  Without an API key [askGemini] issues no request: it logs the
    error and returns the fallback.  With a key it issues exactly one
    request, for the prompt built from the context and the query; when the
    response holds a truthy value at [candidates[0].content.parts[0].text]
    that value is returned and nothing is logged. *)
Theorem askGemini_requests query context w :
  let r := ask_request cfg (prompt_of query context) in
  (unset (GEMINI_API_KEY cfg) = true ->
   askGemini E env cfg query context w
   = (Ok (VStr fallback), logged w (ask_error_log key_error)))
  /\ (unset (GEMINI_API_KEY cfg) = false ->
      requests (snd (askGemini E env cfg query context w)) = S (requests w)
      /\ filter is_http (trace (snd (askGemini E env cfg query context w)))
         = filter is_http (trace w) ++ [EvHttp r])
  /\ (unset (GEMINI_API_KEY cfg) = false ->
      forall st d,
        http env (requests w) r = Resolved st d ->
        truthy (answer_opt d) = true ->
        askGemini E env cfg query context w = (Ok (answer_opt d), sent w r)).
Proof.
  cbv zeta. rewrite askGemini_run. split; [|split].
  - intros ->. reflexivity.
  - intros ->. cbv zeta.
    destruct (http env (requests w) _) as [st d|m resp];
      [destruct (truthy (answer_opt d))|];
      cbn [snd logged sent requests trace]; (split; [reflexivity|]);
      rewrite !filter_app; cbn [filter is_http]; now rewrite ?app_nil_r.
  - intros -> st d Hr Ht. cbv zeta. now rewrite Hr, Ht.
Qed.

End GeneratorClaims.

(** ** The interactive loop: a whole turn, and how the loop ends *)

Section TurnClaims.

Variable E : Engine.
Variable env : Env.
Variable cfg : Config.

Lemma embedWithGemini_single (q : jsstring) w v :
  embedding_in (http env (requests w) (embed_request cfg q)) = Some v ->
  embedWithGemini env cfg [q] w = (Ok [v], sent w (embed_request cfg q)).
Proof.
  intros Hv. unfold embedWithGemini, try_catch. rewrite embed_loop_cons. cbv zeta.
  destruct (http env (requests w) (embed_request cfg q)) as [st d|m resp];
    [|discriminate].
  rewrite Hv. reflexivity.
Qed.


End TurnClaims.

Lemma batch_no_prompt tr : forallb batch tr = true -> filter is_prompt tr = [].
Proof.
  induction tr as [|ev tr IH]; [reflexivity|].
  cbn [forallb filter]. intros H. apply andb_prop in H as [Hev Htr].
  destruct ev; try discriminate; cbn [is_prompt]; auto.
Qed.

Section LoopClaims.

Variable E : Engine.
Variable env : Env.
Variable cfg : Config.

Lemma embedWithGemini_single_trace (q : jsstring) w :
  exists tr,
    trace (snd (embedWithGemini env cfg [q] w))
    = trace w ++ EvHttp (embed_request cfg q) :: tr
    /\ forallb batch tr = true.
Proof.
  unfold embedWithGemini, try_catch. rewrite embed_loop_cons. cbv zeta.
  destruct (http env (requests w) (embed_request cfg q)) as [st d|m resp].
  - destruct (embedding_in (Resolved st d)) as [v|].
    + exists []. cbn [embed_loop ret snd sent trace]. split; reflexivity.
    + destruct (get_member d P_embedding) as [x|e|c|];
        unfold bind, emit, throw, lift; cbn [snd sent trace requests];
        rewrite <- ?app_assoc; eexists; split; reflexivity.
  - unfold bind, emit, throw, lift. cbn [snd sent trace requests].
    rewrite <- app_assoc. eexists. split; reflexivity.
Qed.

(** What a turn adds to the trace: startup-like events, among them the
    embedding request of the query when the line is not blank, and then the
    prompt, once. *)
Lemma on_line_shape line w :
  toLowerCase E (trim line) <> lit "exit" ->
  exists w' tr,
    on_line E env cfg line w = (Ok tt, w')
    /\ trace w' = trace w ++ tr ++ [EvPrompt]
    /\ forallb batch tr = true
    /\ (trim line <> [] -> In (EvHttp (embed_request cfg (trim line))) tr).
Proof.
  intros Hexit.
  destruct (list_eq_dec N.eq_dec (trim line) []) as [Hblank|Hne].
  - rewrite (@on_line_empty E env cfg line w Hblank).
    exists (logged w EvPrompt), []. repeat split; trivial. contradiction.
  - rewrite (@on_line_turn E env cfg line w Hexit Hne).
    destruct (embedWithGemini_single_trace (trim line) (logged w thinking))
      as (tr2 & Htr2 & Hb2).
    pose proof (embedWithGemini_settled env cfg [trim line] (logged w thinking))
      as [He _].
    destruct (embedWithGemini env cfg [trim line] (logged w thinking))
      as [[qe|e|c|] w2]; cbn [fst snd] in He, Htr2; try contradiction.
    + pose proof (searchQdrant_settled E env cfg (nth 0 qe VUndefined) default_topK w2)
        as [Hs (k3 & _ & tr3 & Htr3 & Hb3)].
      destruct (searchQdrant E env cfg (nth 0 qe VUndefined) default_topK w2)
        as [[ctx|e|c|] w3]; cbn [fst snd] in Hs, Htr3; try contradiction.
      * destruct (askGemini_returns E env cfg (trim line) ctx w3)
          as (answer & w4 & k4 & -> & _ & tr4 & Htr4 & Hb4).
        eexists _, (thinking :: EvHttp (embed_request cfg (trim line))
                      :: tr2 ++ tr3 ++ tr4 ++ [clear_line; answer_log answer]).
        split; [reflexivity|]. split; [|split].
        -- cbn [logged trace]. rewrite Htr4, Htr3, Htr2. cbn [logged trace].
           rewrite <- !app_assoc. cbn [app].
           rewrite <- ?app_assoc. cbn [app]. reflexivity.
        -- cbn [forallb batch thinking]. rewrite !forallb_app, Hb2, Hb3, Hb4.
           reflexivity.
        -- intros _. right. now left.
      * eexists _, (thinking :: EvHttp (embed_request cfg (trim line))
                      :: tr2 ++ tr3 ++ [turn_error_log e]).
        split; [reflexivity|]. split; [|split].
        -- cbn [logged trace]. rewrite Htr3, Htr2. cbn [logged trace].
           rewrite <- !app_assoc. cbn [app].
           rewrite <- ?app_assoc. cbn [app]. reflexivity.
        -- cbn [forallb batch thinking]. rewrite !forallb_app, Hb2, Hb3.
           reflexivity.
        -- intros _. right. now left.
    + eexists _, (thinking :: EvHttp (embed_request cfg (trim line))
                    :: tr2 ++ [turn_error_log e]).
      split; [reflexivity|]. split; [|split].
      * cbn [logged trace]. rewrite Htr2. cbn [logged trace].
        rewrite <- !app_assoc. cbn [app].
           rewrite <- ?app_assoc. cbn [app]. reflexivity.
      * cbn [forallb batch thinking]. rewrite !forallb_app, Hb2. reflexivity.
      * intros _. right. now left.
Qed.

Lemma on_input_stop input w :
  stops E input = true ->
  on_input E env cfg input w
  = (Exit 0, {| requests := requests w; trace := trace w ++ [EvClose; goodbye] |}).
Proof.
  destruct input as [line|]; cbn [stops on_input].
  - intros H. apply jsstring_eqb_eq in H. now apply on_line_exit.
  - intros _. unfold rl_close, bind, emit, process_exit, lift. cbn [requests trace].
    now rewrite <- app_assoc.
Qed.

(** The inputs, one after the other: all handled when none stops the
    session, and handled up to the first that does. *)
Lemma interact_cases inputs :
  forall w,
    (forallb (fun input => negb (stops E input)) inputs = true
     /\ exists w' tr,
         interact E env cfg inputs w = (Ok tt, w')
         /\ trace w' = trace w ++ tr
         /\ prompts (trace w') = (prompts (trace w) + length inputs)%nat
         /\ forall line, In (Line line) inputs -> trim line <> [] ->
              In (EvHttp (embed_request cfg (trim line))) tr)
    \/ (exists before stop after wb w',
           inputs = before ++ stop :: after
           /\ forallb (fun input => negb (stops E input)) before = true
           /\ stops E stop = true
           /\ interact E env cfg before w = (Ok tt, wb)
           /\ interact E env cfg inputs w = (Exit 0, w')
           /\ trace w' = trace wb ++ [EvClose; goodbye]
           /\ requests w' = requests wb).
Proof.
  induction inputs as [|input rest IH]; intros w.
  - left. split; [reflexivity|]. exists w, []. cbn [interact ret length].
    rewrite app_nil_r, Nat.add_0_r. repeat split; trivial.
  - destruct (stops E input) eqn:Hstop.
    + right. exists [], input, rest, w. eexists.
      split; [reflexivity|]. split; [reflexivity|]. split; [assumption|].
      split; [reflexivity|]. cbn [interact]. unfold bind.
      rewrite (on_input_stop input w Hstop). repeat split.
    + destruct input as [line|]; [|discriminate].
      cbn [stops] in Hstop. apply jsstring_eqb_neq in Hstop.
      destruct (on_line_shape line w Hstop) as (w1 & tr1 & Hrun & Htr1 & Hb1 & Hreq1).
      assert (Hstep : forall rest', interact E env cfg (Line line :: rest') w
                                    = interact E env cfg rest' w1).
      { intros rest'. cbn [interact on_input]. unfold bind. now rewrite Hrun. }
      destruct (IH w1)
        as [(Hall & w' & tr & Hrest & Htr & Hprompts & Hreqs)
           |(before & stop & after & wb & w' & -> & Hall & Hs & Hbefore & Hrest & Htr & Hr)].
      * left. split.
        { cbn [forallb stops]. apply jsstring_eqb_neq in Hstop. now rewrite Hstop. }
        exists w', ((tr1 ++ [EvPrompt]) ++ tr). rewrite Hstep.
        split; [assumption|]. split; [|split].
        -- now rewrite Htr, Htr1, <- !app_assoc.
        -- rewrite Hprompts, Htr1. unfold prompts.
           rewrite !filter_app, (batch_no_prompt _ Hb1), !length_app.
           cbn [filter is_prompt length]. lia.
        -- intros line' [Hin|Hin] Hne.
           ++ injection Hin as <-. apply in_or_app. left. apply in_or_app. left. auto.
           ++ apply in_or_app. right. auto.
      * right. exists (Line line :: before), stop, after, wb, w'.
        rewrite !Hstep.
        split; [reflexivity|]. split.
        { cbn [forallb stops]. apply jsstring_eqb_neq in Hstop. now rewrite Hstop. }
        auto.
Qed.

(** X9.  The inputs that reach the interface, handled one after the other.
    The loop never throws.  If it is still waiting after the inputs, none of
    them was the exit word or the end of the input, and each was handled:
    the prompt was shown once per input, and the embedding request of every
    line that is not blank was sent.  If the process has exited, it is with
    code 0, at the first input that is the exit word or the end of the
    input: the inputs before it were handled, goodbye was printed without
    any request, and nothing of the inputs after it was done. *)
Theorem interact_outcomes inputs w :
  (forall w',
      interact E env cfg inputs w = (Ok tt, w') ->
      forallb (fun input => negb (stops E input)) inputs = true
      /\ prompts (trace w') = (prompts (trace w) + length inputs)%nat
      /\ forall line, In (Line line) inputs -> trim line <> [] ->
           In (EvHttp (embed_request cfg (trim line))) (trace w'))
  /\ (forall code w',
         interact E env cfg inputs w = (Exit code, w') ->
         code = 0%Z
         /\ exists before stop after wb,
             inputs = before ++ stop :: after
             /\ forallb (fun input => negb (stops E input)) before = true
             /\ stops E stop = true
             /\ interact E env cfg before w = (Ok tt, wb)
             /\ trace w' = trace wb ++ [EvClose; goodbye]
             /\ requests w' = requests wb)
  /\ (forall e w', interact E env cfg inputs w <> (Throw e, w')).
Proof.
  destruct (interact_cases inputs w)
    as [(Hall & w1 & tr & Hrun & Htr & Hprompts & Hreqs)
       |(before & stop & after & wb & w1 & Hsplit & Hall & Hs & Hbefore & Hrun & Htr & Hr)];
    rewrite Hrun; (split; [|split]); try (intros; discriminate).
  - intros w' H. injection H as <-. split; [assumption|]. split; [assumption|].
    intros line Hin Hne. rewrite Htr. apply in_or_app. right. auto.
  - intros code w' H. injection H as <- <-. split; [reflexivity|].
    exists before, stop, after, wb. auto 10.
Qed.

(** The lines of [chat] are the inputs of a run that meets no end of
    input. *)
Lemma interact_lines lines w :
  interact E env cfg (map Line lines) w = chat E env cfg lines w.
Proof.
  revert w. induction lines as [|line rest IH]; intros w; [reflexivity|].
  cbn [map interact chat on_input]. unfold bind.
  destruct (on_line E env cfg line w) as [[[]|e|c|] w']; auto.
Qed.

End LoopClaims.

(** A session: a question, a blank line, then the end of the input; what
    follows is not handled. *)
Example interact_until_end_of_input :
  let run :=
    interact ascii_engine (always (Resolved 200 sample_body)) test_config
             [Line (lit "why?"); Line (lit "  "); EndOfInput; Line (lit "more")]
             initial_world in
  fst run = Exit 0
  /\ prompts (trace (snd run)) = 2%nat
  /\ requests (snd run) = 3%nat.
Proof. vm_compute. repeat split. Qed.


(** ** Startup: the order of the work *)

Lemma filter_http_requests (f : jsstring -> Request) (l : list jsstring) :
  filter is_http (map (fun t => EvHttp (f t)) l) = map (fun t => EvHttp (f t)) l.
Proof. induction l as [|t l IH]; [reflexivity|]. cbn. now rewrite IH. Qed.

Lemma ids_of_nth {A : Type} (chunks : list A) k :
  (k < length chunks)%nat -> nth_error (ids_of chunks) k = Some (S k).
Proof.
  intros Hk. unfold ids_of.
  rewrite nth_error_map, nth_error_seq.
  destruct (Nat.ltb_spec k (length chunks)); [reflexivity|lia].
Qed.

Section StartupOrder.

Variable E : Engine.
Variable env : Env.
Variable cfg : Config.

Lemma createCollection_ok dim w :
  fst (createCollection env cfg dim w) = Ok tt ->
  exists ev,
    createCollection env cfg dim w
    = (Ok tt, logged (sent w (create_request cfg dim)) ev)
    /\ is_http ev = false.
Proof.
  rewrite createCollection_run. cbv zeta.
  destruct (http env (requests w) (create_request cfg dim)) as [st d|m resp].
  - intros _. now exists created_log.
  - destruct (status_is (AxiosError m resp) 409); [|discriminate].
    intros _. now exists exists_log.
Qed.

Lemma upsertToQdrant_ok ids texts embeddings w :
  fst (upsertToQdrant E env cfg ids texts embeddings w) = Ok tt ->
  exists ev,
    upsertToQdrant E env cfg ids texts embeddings w
    = (Ok tt,
       logged (sent w (upsert_request cfg (points_from 0 ids texts embeddings))) ev)
    /\ is_http ev = false.
Proof.
  rewrite upsertToQdrant_run. cbv zeta.
  destruct (http env (requests w) _) as [st d|m resp]; [|discriminate].
  intros _. eexists. split; reflexivity.
Qed.

Lemma main_ok_trace w0 :
  requests w0 = 0%nat ->
  fst (main E env cfg w0) = Ok tt ->
  exists text embeddings,
    readFile env (lit "text.txt") = inl text
    /\ length embeddings = length (startup_chunks text)
    /\ (forall i chunk,
           nth_error (startup_chunks text) i = Some chunk ->
           nth_error embeddings i
           = embedding_in (http env (2 + i) (embed_request cfg chunk)))
    /\ filter is_http (trace (snd (main E env cfg w0)))
       = filter is_http (trace w0)
           ++ EvHttp (models_request cfg)
           :: EvHttp (create_request cfg default_dim)
           :: map (fun c => EvHttp (embed_request cfg c)) (startup_chunks text)
           ++ [EvHttp (upsert_request cfg
                         (points_from 0 (ids_of (startup_chunks text))
                                      (startup_chunks text) embeddings))]
    /\ requests (snd (main E env cfg w0)) = (3 + length (startup_chunks text))%nat.
Proof.
  intros Hreq. rewrite main_run. cbv zeta.
  destruct (http env (requests w0) (models_request cfg)) as [st0 d0|m resp];
    [|discriminate].
  destruct (readFile env (lit "text.txt")) as [text|m]; [|discriminate].
  match goal with
  | |- context [createCollection env cfg ?d ?w] =>
      pose proof (@createCollection_ok d w) as Hc;
      destruct (createCollection env cfg d w) as [[[]|e|c|] w5]
  end; try discriminate.
  destruct (Hc eq_refl) as (ev & Heq & Hev). injection Heq as ->. clear Hc.
  match goal with
  | |- context [embedWithGemini env cfg ?t ?w] =>
      destruct (embedWithGemini_cases env cfg t w)
        as [(vs & w6 & Hrun & Hlen & Hnth & Htr & Hext)|(e & w6 & i & t' & Hrun & _)]
  end; rewrite Hrun; [|discriminate].
  match goal with
  | |- context [upsertToQdrant E env cfg ?i ?t ?v ?w] =>
      pose proof (@upsertToQdrant_ok i t v w) as Hu;
      destruct (upsertToQdrant E env cfg i t v w) as [[[]|e|c|] w7]
  end; try discriminate.
  destruct (Hu eq_refl) as (ev' & Heq & Hev'). injection Heq as ->. clear Hu.
  intros _. exists text, vs.
  split; [reflexivity|]. split; [assumption|]. split.
  - intros i chunk Hi. rewrite (Hnth i chunk Hi).
    cbn [logged sent requests]. now rewrite Hreq.
  - destruct Hext as [Hreq6 _]. cbn [logged sent requests] in Hreq6.
    unfold startChat, bind, emit. cbn [fst snd logged sent requests trace].
    rewrite Htr. cbn [logged sent trace].
    rewrite !filter_app, filter_http_requests. cbn [filter is_http testing_log
      processing_log]. rewrite Hev, Hev'.
    split; [|lia].
    rewrite !app_nil_r, <- !app_assoc. reflexivity.
Qed.

(** X10.  When the startup succeeds, the requests it issued are, in this
    order: the connectivity check, the creation of the collection with 768
    dimensions, one embedding request per chunk of the document in the
    order of the chunks, and one upsert.  The upserted point at position
    [k] has id [k + 1], the embedding returned for chunk [k] and the text
    of chunk [k].  Nothing else is sent. *)
Theorem startup_requests :
  fst (startup E env cfg) = Ok tt ->
  exists text embeddings,
    let chunks := startup_chunks text in
    let points := points_from 0 (ids_of chunks) chunks embeddings in
    readFile env (lit "text.txt") = inl text
    /\ length embeddings = length chunks
    /\ (forall i chunk,
           nth_error chunks i = Some chunk ->
           nth_error embeddings i
           = embedding_in (http env (2 + i) (embed_request cfg chunk)))
    /\ filter is_http (trace (snd (startup E env cfg)))
       = EvHttp (models_request cfg)
           :: EvHttp (create_request cfg default_dim)
           :: map (fun c => EvHttp (embed_request cfg c)) chunks
           ++ [EvHttp (upsert_request cfg points)]
    /\ (forall k chunk,
           nth_error chunks k = Some chunk ->
           nth_error points k
           = Some (VObj [(lit "id", VNum (float_of_nat (S k)));
                         (lit "vector", nth k embeddings VUndefined);
                         (lit "payload", VObj [(lit "text", VStr chunk)])])).
Proof.
  unfold startup, node, module_body.
  destruct (unset (GEMINI_API_KEY cfg) || unset (QDRANT_API_KEY cfg)
            || unset (QDRANT_HOST cfg) || unset (COLLECTION_NAME cfg));
    [discriminate|].
  intros Hok.
  assert (Hmain : fst (main E env cfg initial_world) = Ok tt).
  { destruct (main E env cfg initial_world) as [[[]|e|c|] w]; try discriminate.
    reflexivity. }
  destruct (main_ok_trace initial_world eq_refl Hmain)
    as (text & vs & Hfile & Hlen & Hnth & Htr & _).
  exists text, vs. cbv zeta.
  split; [assumption|]. split; [assumption|]. split; [assumption|]. split.
  - destruct (main E env cfg initial_world) as [[[]|e|c|] w]; try discriminate.
    exact Htr.
  - intros k chunk Hk.
    assert (Hlt : (k < length (startup_chunks text))%nat)
      by (apply nth_error_Some; congruence).
    rewrite (points_from_nth _ _ _ 0 k (ids_of_nth _ Hlt)).
    unfold point_at. cbn [Nat.add]. now rewrite Hk.
Qed.

End StartupOrder.

Lemma startup_requests_witness :
  let E := ascii_engine in
  let env := always (Resolved 200 sample_body) in
  let cfg := test_config in
  exists text embeddings,
    let chunks := startup_chunks text in
    let points := points_from 0 (ids_of chunks) chunks embeddings in
    readFile env (lit "text.txt") = inl text
    /\ length embeddings = length chunks
    /\ (forall i chunk,
           nth_error chunks i = Some chunk ->
           nth_error embeddings i
           = embedding_in (http env (2 + i) (embed_request cfg chunk)))
    /\ filter is_http (trace (snd (startup E env cfg)))
       = EvHttp (models_request cfg)
           :: EvHttp (create_request cfg default_dim)
           :: map (fun c => EvHttp (embed_request cfg c)) chunks
           ++ [EvHttp (upsert_request cfg points)]
    /\ (forall k chunk,
           nth_error chunks k = Some chunk ->
           nth_error points k
           = Some (VObj [(lit "id", VNum (float_of_nat (S k)));
                         (lit "vector", nth k embeddings VUndefined);
                         (lit "payload", VObj [(lit "text", VStr chunk)])])).
Proof.
  apply (@startup_requests ascii_engine (always (Resolved 200 sample_body)) test_config).
  vm_compute. reflexivity.
Defined.

Section StartupAbort.

Variable E : Engine.
Variable env : Env.
Variable cfg : Config.

Lemma createCollection_no_upsert dim w :
  exists tr,
    trace (snd (createCollection env cfg dim w)) = trace w ++ tr
    /\ forallb (fun ev => negb (is_upsert ev)) tr = true.
Proof.
  rewrite createCollection_run. cbv zeta.
  destruct (http env (requests w) (create_request cfg dim)) as [st d|m resp];
    [|destruct (status_is (AxiosError m resp) 409)];
    cbn [snd logged sent trace]; rewrite <- app_assoc; eexists;
    (split; [reflexivity|reflexivity]).
Qed.

Lemma embedWithGemini_no_upsert texts w :
  exists tr,
    trace (snd (embedWithGemini env cfg texts w)) = trace w ++ tr
    /\ forallb (fun ev => negb (is_upsert ev)) tr = true.
Proof.
  assert (Hreq : forall l,
             forallb (fun ev => negb (is_upsert ev))
                     (map (fun t => EvHttp (embed_request cfg t)) l) = true)
    by (induction l; cbn; auto).
  unfold embedWithGemini, try_catch.
  destruct (embed_loop_cases env cfg texts [] w)
    as [(vs & w' & Hrun & _ & _ & _ & Htr)|(e & w' & i & t & Hrun & _ & _ & _ & Htr)];
    rewrite Hrun.
  - cbn [snd]. rewrite Htr. eauto.
  - unfold bind, emit, throw, lift. cbn [snd trace]. rewrite Htr, <- app_assoc.
    eexists. split; [reflexivity|]. rewrite forallb_app, Hreq. reflexivity.
Qed.

(** X11.  No partial indexing: an upsert request is sent only when the
    document was read and every chunk's embedding call carried an
    embedding.  In every other run (a failure of the configuration, the
    connectivity check, the file, the collection or one embedding) the
    trace holds no upsert request. *)
Theorem upsert_only_after_all_embeddings :
  (forall points, is_upsert (EvHttp (upsert_request cfg points)) = true)
  /\ (forallb (fun ev => negb (is_upsert ev)) (trace (snd (startup E env cfg))) = true
      \/ exists text,
          readFile env (lit "text.txt") = inl text
          /\ forall i chunk,
              nth_error (startup_chunks text) i = Some chunk ->
              embedding_in (http env (2 + i) (embed_request cfg chunk)) <> None).
Proof.
  split; [reflexivity|].
  unfold startup, node, module_body.
  destruct (unset (GEMINI_API_KEY cfg) || unset (QDRANT_API_KEY cfg)
            || unset (QDRANT_HOST cfg) || unset (COLLECTION_NAME cfg));
    [left; reflexivity|].
  rewrite main_run. cbv zeta. cbn [requests initial_world].
  destruct (http env 0 (models_request cfg)) as [st0 d0|m resp];
    [|left; reflexivity].
  destruct (readFile env (lit "text.txt")) as [text|m]; [|left; reflexivity].
  match goal with
  | |- context [createCollection env cfg ?d ?w] =>
      destruct (createCollection_no_upsert d w) as (tr5 & Htr5 & Hq5);
      pose proof (createCollection_settled env cfg d w) as [Hs5 Hext5];
      destruct (createCollection env cfg d w) as [[[]|e|c|] w5]
  end; cbn [fst snd] in Htr5, Hs5, Hext5; try contradiction.
  2:{ left. cbn [snd logged trace]. rewrite Htr5.
      cbn [logged sent trace initial_world].
      rewrite !forallb_app, Hq5. reflexivity. }
  assert (Hr5 : requests w5 = 2%nat)
    by (destruct Hext5 as [-> _]; reflexivity).
  destruct (embedWithGemini_no_upsert (startup_chunks text) w5) as (tr6 & Htr6 & Hq6).
  destruct (embedWithGemini_cases env cfg (startup_chunks text) w5)
    as [(vs & w6 & Hrun & Hlen & Hnth & _)|(e & w6 & i & t & Hrun & _)];
    rewrite Hrun in Htr6 |- *; cbn [snd] in Htr6.
  - right. exists text. split; [reflexivity|].
    intros i chunk Hi Hnone.
    assert (Hsome : nth_error vs i <> None).
    { apply nth_error_Some. rewrite Hlen. apply nth_error_Some. congruence. }
    rewrite (Hnth i chunk Hi), Hr5 in Hsome. contradiction.
  - left. cbn [snd logged trace]. rewrite Htr6, Htr5.
    cbn [logged sent trace initial_world].
    rewrite !forallb_app, Hq5, Hq6. reflexivity.
Qed.

(** X12.  The first stages fail before anything else is done.  With a
    required variable missing or empty the process ends with code 1 on the
    uncaught error, with no request sent and no file read.  With a rejected
    connectivity check it ends with code 1 on the unhandled
    "Gemini API connection failed" error after that single request, before
    the document is read.  With an unreadable document it logs the fatal
    error and ends with code 1 before any indexing request. *)
Theorem startup_aborts_early :
  (unset (GEMINI_API_KEY cfg) || unset (QDRANT_API_KEY cfg)
   || unset (QDRANT_HOST cfg) || unset (COLLECTION_NAME cfg) = true ->
   startup E env cfg
   = (Exit 1,
      {| requests := 0;
         trace := [EvUncaught
                     (PlainError (lit "Missing required environment variables"))] |}))
  /\ (unset (GEMINI_API_KEY cfg) || unset (QDRANT_API_KEY cfg)
      || unset (QDRANT_HOST cfg) || unset (COLLECTION_NAME cfg) = false ->
      (forall m resp,
          http env 0 (models_request cfg) = Rejected m resp ->
          startup E env cfg
          = (Exit 1,
             {| requests := 1;
                trace := [testing_log;
                          EvHttp (models_request cfg);
                          EvUncaught (connection_error (AxiosError m resp))] |}))
      /\ (forall st d m,
             http env 0 (models_request cfg) = Resolved st d ->
             readFile env (lit "text.txt") = inr m ->
             startup E env cfg
             = (Exit 1,
                {| requests := 1;
                   trace := [testing_log;
                             EvHttp (models_request cfg);
                             EvReadFile (lit "text.txt");
                             fatal_log (FsError m)] |}))).
Proof.
  unfold startup, node, module_body. split.
  - intros ->. reflexivity.
  - intros ->. rewrite main_run. cbv zeta. cbn [requests initial_world]. split.
    + intros m resp ->. reflexivity.
    + intros st d m -> ->. reflexivity.
Qed.

End StartupAbort.

Section TurnFailures.

Variable E : Engine.
Variable env : Env.
Variable cfg : Config.

(** X13.  A turn whose retrieval fails stops there: no later request is
    sent.  When the embedding call of the query carries no embedding, the
    turn has issued that one request; the error is printed twice, by
    [embedWithGemini] and by the turn.  When the embedding is there but the
    search response has no truthy [result], the turn has issued two
    requests and no generation request; the response body is printed, then
    the protocol error.  In both cases the prompt is shown last. *)
Theorem on_line_retrieval_fails line w :
  toLowerCase E (trim line) <> lit "exit" ->
  trim line <> [] ->
  let embed := embed_request cfg (trim line) in
  (embedding_in (http env (requests w) embed) = None ->
   let e := embed_failure (http env (requests w) embed) in
   on_line E env cfg line w
   = (Ok tt,
      {| requests := requests w + 1;
         trace := trace w
                    ++ [thinking; EvHttp embed; embed_error_log e;
                        turn_error_log e; EvPrompt] |}))
  /\ (forall v st d,
         embedding_in (http env (requests w) embed) = Some v ->
         http env (S (requests w)) (search_request cfg v default_topK) = Resolved st d ->
         truthy (opt_member d P_result) = false ->
         on_line E env cfg line w
         = (Ok tt,
            {| requests := requests w + 2;
               trace := trace w
                          ++ [thinking; EvHttp embed;
                              EvHttp (search_request cfg v default_topK);
                              EvError [VStr (lit "Qdrant search error:"); d];
                              turn_error_log invalid_search_response;
                              EvPrompt] |})).
Proof.
  intros Hexit Hne embed. split.
  - intros Hnone e.
    rewrite (@on_line_turn E env cfg line w Hexit Hne).
    unfold embedWithGemini, try_catch.
    assert (H0 : nth_error [trim line] 0 = Some (trim line)) by reflexivity.
    rewrite (@embed_loop_first_failure env cfg [trim line] [] (logged w thinking)
               0%nat (trim line) H0).
    + unfold bind, emit, throw, lift. cbn [logged sent requests trace firstn map].
      rewrite Nat.add_0_r. fold embed. fold e.
      unfold logged. cbn [requests trace]. do 2 f_equal.
      now rewrite <- !app_assoc.
    + intros j t Hj. lia.
    + cbn [logged requests]. now rewrite Nat.add_0_r.
  - intros v st d Hemb Hsearch Hfalsy.
    rewrite (@on_line_turn E env cfg line w Hexit Hne).
    rewrite (@embedWithGemini_single env cfg (trim line) (logged w thinking) v Hemb).
    cbn [nth]. rewrite searchQdrant_run. cbv zeta. cbn [sent logged requests].
    rewrite Hsearch, Hfalsy.
    unfold logged, sent. cbn [requests trace]. do 2 f_equal; [lia|].
    now rewrite <- !app_assoc.
Qed.

End TurnFailures.

Lemma on_line_retrieval_fails_witness :
  let E := ascii_engine in
  let env := except_request 1 (Resolved 200 (VObj [(lit "status", VStr (lit "error"))])) in
  let cfg := test_config in
  let line := lit "why?" in
  let w := initial_world in
  let embed := embed_request cfg (trim line) in
  (embedding_in (http env (requests w) embed) = None ->
   let e := embed_failure (http env (requests w) embed) in
   on_line E env cfg line w
   = (Ok tt,
      {| requests := requests w + 1;
         trace := trace w
                    ++ [thinking; EvHttp embed; embed_error_log e;
                        turn_error_log e; EvPrompt] |}))
  /\ (forall v st d,
         embedding_in (http env (requests w) embed) = Some v ->
         http env (S (requests w)) (search_request cfg v default_topK) = Resolved st d ->
         truthy (opt_member d P_result) = false ->
         on_line E env cfg line w
         = (Ok tt,
            {| requests := requests w + 2;
               trace := trace w
                          ++ [thinking; EvHttp embed;
                              EvHttp (search_request cfg v default_topK);
                              EvError [VStr (lit "Qdrant search error:"); d];
                              turn_error_log invalid_search_response;
                              EvPrompt] |})).
Proof.
  apply (@on_line_retrieval_fails ascii_engine
           (except_request 1 (Resolved 200 (VObj [(lit "status", VStr (lit "error"))])))
           test_config (lit "why?") initial_world).
  - vm_compute. discriminate.
  - vm_compute. discriminate.
Defined.

(** The turn of the witness, evaluated: the search answers without
    [result]. *)
Example turn_search_malformed :
  on_line ascii_engine
          (except_request 1 (Resolved 200 (VObj [(lit "status", VStr (lit "error"))])))
          test_config (lit "why?") initial_world
  = (Ok tt,
     {| requests := 2;
        trace := [thinking;
                  EvHttp (embed_request test_config (lit "why?"));
                  EvHttp (search_request test_config (VArr [VNum 0.5%float]) default_topK);
                  EvError [VStr (lit "Qdrant search error:");
                           VObj [(lit "status", VStr (lit "error"))]];
                  turn_error_log invalid_search_response;
                  EvPrompt] |}).
Proof. vm_compute. reflexivity. Qed.
